(** * IRonoff: an IR-remote learning relay controller (Arduino sketch)

    Shallow embedding of [IRonoff.ino] and the properties of its
    fingerprinting routine and of its polling loop.

    Target conventions (the sketch is written for an 8-bit AVR board, see the
    pin comments of the source): [unsigned int] and [int] are 16 bits wide,
    [unsigned long] is 32 bits wide, and [double] is the IEEE binary32
    format. *)

From Stdlib Require Import ZArith Lia List Bool String SpecFloat.
From Stdlib.Strings Require Import Byte.
From stdpp Require Import base option gmap.
Import ListNotations.

Local Open Scope Z_scope.

(** ** Machine integers *)

Definition wrap16 (z : Z) : Z := z mod 2 ^ 16.
Definition wrap32 (z : Z) : Z := z mod 2 ^ 32.

(** Logical negation of a C [int]. *)
Definition lnot (z : Z) : Z := if z =? 0 then 1 else 0.

(** ** Constants of the sketch *)

Definition RELAY_PIN : Z := 2.
Definition IR_PIN : Z := 5.
Definition MEMORY_TIME_PIN : Z := 7.
Definition MEMORY_CODE_PIN : Z := 8.
Definition STATUS_LED : Z := 13.
Definition ADDR_CODE : Z := 0.
Definition ADDR_TIME : Z := 100.
Definition MAX_TIME : Z := 10000.
Definition DEFAULT_TIME : Z := 5000.
Definition FNV_PRIME_32 : Z := 16777619.
Definition FNV_BASIS_32 : Z := 2166136261.
Definition DEBUG : bool := true.

(** Pin levels. *)
Definition HIGH : bool := true.
Definition LOW : bool := false.

(** ** Floating point: the [double] of the target *)

Module Dbl.
Definition prec : Z := 24.
Definition emax : Z := 128.

(** Conversion of an integer to [double]. *)
Definition of_Z (n : Z) : spec_float := binary_normalize prec emax n 0 false.

Definition mul : spec_float -> spec_float -> spec_float := SFmul prec emax.
Definition ltb : spec_float -> spec_float -> bool := SFltb.

(** The literal [.8]: the [double] nearest to 8/10. *)
Definition dot8 : spec_float := SFdiv prec emax (of_Z 8) (of_Z 10).
End Dbl.

(** ** Signal fingerprinting *)

(** [compare]: 0 if [newval] is shorter, 1 if equal, 2 if longer, with a
    tolerance of 20%. Both arguments are converted to [double] by the mixed
    comparison. *)
Definition compare (oldval newval : Z) : Z :=
  if Dbl.ltb (Dbl.of_Z newval) (Dbl.mul (Dbl.of_Z oldval) Dbl.dot8) then 0
  else if Dbl.ltb (Dbl.of_Z oldval) (Dbl.mul (Dbl.of_Z newval) Dbl.dot8) then 2
  else 1.

(** Modelled from the spec: the IR library's [decode_results] is declared
    outside the sources. The sketch reads two of its fields: the Pulse
    Sequence, an ordered sequence of unsigned durations, and its length. *)
Record decode_results : Type := mk_results {
  rawbuf : list Z;
  rawlen : Z
}.

(** The result record of a captured pulse sequence. *)
Definition results_of (pulses : list Z) : decode_results :=
  {| rawbuf := pulses; rawlen := Z.of_nat (length pulses) |}.

(** [results->rawbuf[i]] *)
Definition rawbuf_at (r : decode_results) (i : Z) : Z :=
  nth (Z.to_nat i) (rawbuf r) 0.

(** One FNV fold step: [hash = (hash * FNV_PRIME_32) ^ value]. *)
Definition hash_step (hash value : Z) : Z :=
  Z.lxor (wrap32 (hash * FNV_PRIME_32)) value.

(** The [for] loop of [decodeHash], entered with counter [i]; [fuel] bounds
    the number of iterations. *)
Fixpoint decodeHash_loop (fuel : nat) (r : decode_results) (i hash : Z) : Z :=
  match fuel with
  | O => hash
  | S fuel' =>
      if i + 2 <? rawlen r then
        let value := compare (rawbuf_at r i) (rawbuf_at r (i + 2)) in
        decodeHash_loop fuel' r (i + 1) (hash_step hash value)
      else hash
  end.

Definition decodeHash (r : decode_results) : Z :=
  decodeHash_loop (Z.to_nat (rawlen r)) r 1 FNV_BASIS_32.

(** *** Reference definition of the fingerprint

    Follows the wording of the specification: starting from the FNV-32
    basis, for each index [i] from 1 to [L - 3] inclusive fold the ternary
    symbol [compare seq[i] seq[i+2]] by
    [hash = (hash * 16777619) XOR symbol], the product taken modulo 2^32. *)
Definition fingerprint_spec (pulses : list Z) : Z :=
  fold_left
    (fun hash i =>
       Z.lxor ((hash * 16777619) mod 2 ^ 32)
              (compare (nth i pulses 0) (nth (i + 2)%nat pulses 0)))
    (seq 1 (length pulses - 3))
    2166136261.

(** ** The board and the sketch's variables *)

(** What the sketch does to the outside, in order. *)
Inductive Event : Type :=
  | EvPinMode (pin : Z) (output : bool)
  | EvWrite (pin : Z) (level : bool)
  | EvDelay (ms : Z)
  | EvSerialBegin (baud : Z)
  | EvPrint (s : string)
  | EvPrintlnHex (v : Z).

Record World : Type := mkWorld {
  (* global variables of the sketch *)
  storedCode : Z;                (* unsigned long *)
  storedTime : Z;                (* unsigned int *)
  timeMs : Z;                    (* unsigned long *)
  codeMs : Z;                    (* unsigned long *)
  relayStatus : Z;               (* int *)
  results : decode_results;
  (* the board *)
  eeprom : gmap Z byte;          (* byte store, by address *)
  port : gmap Z bool;            (* level last written to each pin *)
  pin_in : gmap Z bool;          (* level present on each input pin *)
  irrecv : option (list Z);      (* a completely received transmission *)
  clock : Z;                     (* millisecond counter *)
  ticks : list Z;                (* ms that pass before each later reading *)
  trace : list Event
}.

Definition set_storedCode (v : Z) (w : World) : World :=
  mkWorld v (storedTime w) (timeMs w) (codeMs w) (relayStatus w) (results w)
    (eeprom w) (port w) (pin_in w) (irrecv w) (clock w) (ticks w) (trace w).
Definition set_storedTime (v : Z) (w : World) : World :=
  mkWorld (storedCode w) v (timeMs w) (codeMs w) (relayStatus w) (results w)
    (eeprom w) (port w) (pin_in w) (irrecv w) (clock w) (ticks w) (trace w).
Definition set_timeMs (v : Z) (w : World) : World :=
  mkWorld (storedCode w) (storedTime w) v (codeMs w) (relayStatus w) (results w)
    (eeprom w) (port w) (pin_in w) (irrecv w) (clock w) (ticks w) (trace w).
Definition set_codeMs (v : Z) (w : World) : World :=
  mkWorld (storedCode w) (storedTime w) (timeMs w) v (relayStatus w) (results w)
    (eeprom w) (port w) (pin_in w) (irrecv w) (clock w) (ticks w) (trace w).
Definition set_relayStatus (v : Z) (w : World) : World :=
  mkWorld (storedCode w) (storedTime w) (timeMs w) (codeMs w) v (results w)
    (eeprom w) (port w) (pin_in w) (irrecv w) (clock w) (ticks w) (trace w).
Definition set_results (v : decode_results) (w : World) : World :=
  mkWorld (storedCode w) (storedTime w) (timeMs w) (codeMs w) (relayStatus w) v
    (eeprom w) (port w) (pin_in w) (irrecv w) (clock w) (ticks w) (trace w).
Definition set_eeprom (v : gmap Z byte) (w : World) : World :=
  mkWorld (storedCode w) (storedTime w) (timeMs w) (codeMs w) (relayStatus w)
    (results w) v (port w) (pin_in w) (irrecv w) (clock w) (ticks w) (trace w).
Definition set_port (v : gmap Z bool) (w : World) : World :=
  mkWorld (storedCode w) (storedTime w) (timeMs w) (codeMs w) (relayStatus w)
    (results w) (eeprom w) v (pin_in w) (irrecv w) (clock w) (ticks w) (trace w).
Definition set_pin_in (v : gmap Z bool) (w : World) : World :=
  mkWorld (storedCode w) (storedTime w) (timeMs w) (codeMs w) (relayStatus w)
    (results w) (eeprom w) (port w) v (irrecv w) (clock w) (ticks w) (trace w).
Definition set_irrecv (v : option (list Z)) (w : World) : World :=
  mkWorld (storedCode w) (storedTime w) (timeMs w) (codeMs w) (relayStatus w)
    (results w) (eeprom w) (port w) (pin_in w) v (clock w) (ticks w) (trace w).
Definition set_time (now : Z) (rest : list Z) (w : World) : World :=
  mkWorld (storedCode w) (storedTime w) (timeMs w) (codeMs w) (relayStatus w)
    (results w) (eeprom w) (port w) (pin_in w) (irrecv w) now rest (trace w).
Definition emit (e : Event) (w : World) : World :=
  mkWorld (storedCode w) (storedTime w) (timeMs w) (codeMs w) (relayStatus w)
    (results w) (eeprom w) (port w) (pin_in w) (irrecv w) (clock w) (ticks w)
    (trace w ++ [e]).

(** ** Commands: state passing over the world *)

Definition M (A : Type) : Type := World -> A * World.

#[global] Instance M_ret : MRet M := fun A (a : A) w => (a, w).
#[global] Instance M_bind : MBind M :=
  fun A B (f : A -> M B) (c : M A) w => let (a, w') := c w in f a w'.

Definition gets {A : Type} (f : World -> A) : M A := fun w => (f w, w).
Definition modify (f : World -> World) : M unit := fun w => (tt, f w).
Definition skip : M unit := mret tt.

(** The world left by a command, and the value it returns. *)
Definition exec {A : Type} (c : M A) (w : World) : World := snd (c w).
Definition eval {A : Type} (c : M A) (w : World) : A := fst (c w).

(** The events a command adds to the trace. *)
Definition emitted {A : Type} (c : M A) (w : World) : list Event :=
  drop (length (trace w)) (trace (exec c w)).

(** ** Board primitives *)

Definition pinMode (pin : Z) (output : bool) : M unit :=
  modify (emit (EvPinMode pin output)).

Definition digitalWrite (pin : Z) (level : bool) : M unit :=
  modify (fun w => emit (EvWrite pin level) (set_port (<[pin := level]> (port w)) w)).

(** An input that nothing drives reads [HIGH] (pull-up). *)
Definition digitalRead (pin : Z) : M bool :=
  gets (fun w => default HIGH (pin_in w !! pin)).

(** [millis()]: the counter, after the time that passed since it was last
    looked at. The counter wraps at 2^32. *)
Definition millis : M Z := fun w =>
  let now := wrap32 (clock w + hd 0 (ticks w)) in
  (now, set_time now (tl (ticks w)) w).

Definition delay (ms : Z) : M unit :=
  modify (fun w => emit (EvDelay ms) (set_time (wrap32 (clock w + ms)) (ticks w) w)).

Definition Serial_begin (baud : Z) : M unit := modify (emit (EvSerialBegin baud)).
Definition Serial_print (s : string) : M unit := modify (emit (EvPrint s)).
Definition Serial_println_hex (v : Z) : M unit := modify (emit (EvPrintlnHex v)).

(** *** IR capture

    Modelled from the spec: the IR library is not part of the sources. Its
    contract is [try_receive() -> optional<PulseSequence>], a non-blocking
    poll that hands over a completely received transmission, and
    [resume_capture()], which re-arms the receiver for the next one. *)
Definition irrecv_enableIRIn : M unit := modify (set_irrecv None).

Definition irrecv_decode : M bool := fun w =>
  match irrecv w with
  | Some pulses => (true, set_results (results_of pulses) w)
  | None => (false, w)
  end.

Definition irrecv_resume : M unit := modify (set_irrecv None).

(** *** Byte store

    Modelled from the spec: [EEPROMWriteAnything.h] is not part of the
    sources. A value is written to, and read from, a fixed byte offset as a
    raw fixed-width value: [size] bytes, least significant first, as the
    target lays them out in memory. A cell never written reads 0xFF. *)
Definition Z_of_byte (b : byte) : Z := Z.of_N (Byte.to_N b).
Definition byte_of_Z (z : Z) : byte :=
  default x00 (Byte.of_N (Z.to_N (z mod 256))).

Definition EEPROM_read (m : gmap Z byte) (addr : Z) : byte := default xff (m !! addr).

Fixpoint store_bytes (size : nat) (ee value : Z) (m : gmap Z byte) : gmap Z byte :=
  match size with
  | O => m
  | S size' => store_bytes size' (ee + 1) (value / 256) (<[ee := byte_of_Z value]> m)
  end.

Fixpoint load_bytes (size : nat) (ee : Z) (m : gmap Z byte) : Z :=
  match size with
  | O => 0
  | S size' => Z_of_byte (EEPROM_read m ee) + 256 * load_bytes size' (ee + 1) m
  end.

Definition EEPROM_writeAnything (size : nat) (ee value : Z) : M unit :=
  modify (fun w => set_eeprom (store_bytes size ee value (eeprom w)) w).

Definition EEPROM_readAnything (size : nat) (ee : Z) : M Z :=
  gets (fun w => load_bytes size ee (eeprom w)).

Definition sizeof_uint : nat := 2.
Definition sizeof_ulong : nat := 4.

(** ** The sketch *)

Definition setup : M unit :=
  irrecv_enableIRIn ;;
  pinMode MEMORY_TIME_PIN false ;;
  pinMode MEMORY_CODE_PIN false ;;
  pinMode RELAY_PIN true ;;
  pinMode STATUS_LED true ;;
  digitalWrite MEMORY_TIME_PIN HIGH ;;
  digitalWrite MEMORY_CODE_PIN HIGH ;;
  code ← EEPROM_readAnything sizeof_ulong ADDR_CODE;
  modify (set_storedCode code) ;;
  time ← EEPROM_readAnything sizeof_uint ADDR_TIME;
  modify (set_storedTime time) ;;
  (if (time =? 0) || (MAX_TIME <? time)
   then modify (set_storedTime DEFAULT_TIME) else skip) ;;
  (if DEBUG then Serial_begin 9600 else skip).

Definition blink : M unit :=
  digitalWrite STATUS_LED HIGH ;;
  delay 200 ;;
  digitalWrite STATUS_LED LOW ;;
  delay 200.

(** What one [blink] adds to the trace. *)
Definition blink_events : list Event :=
  [EvWrite STATUS_LED HIGH; EvDelay 200; EvWrite STATUS_LED LOW; EvDelay 200].

Definition saveTimeout (newTime : Z) : M unit :=
  newTime ← (if MAX_TIME <? newTime then blink ;; mret 1000 else mret newTime);
  blink ;;
  EEPROM_writeAnything sizeof_uint ADDR_TIME newTime ;;
  modify (set_storedTime newTime).

(** The body of [loop], statement by statement. *)

(** "Increase timeout" *)
Definition loop_increase_timeout : M unit :=
  level ← digitalRead MEMORY_TIME_PIN;
  if Bool.eqb level LOW then
    now ← millis;
    last ← gets timeMs;
    (if 1000 <? wrap32 (now - last)
     then time ← gets storedTime; saveTimeout (wrap16 (time + 1000))
     else skip) ;;
    now ← millis;
    modify (set_timeMs now)
  else skip.

(** "Save code?": returns the local [saveMode]. *)
Definition loop_save_code (hash : Z) : M Z :=
  level ← digitalRead MEMORY_CODE_PIN;
  if Bool.eqb level LOW then
    EEPROM_writeAnything sizeof_ulong ADDR_CODE hash ;;
    modify (set_storedCode hash) ;;
    blink ;;
    mret 1
  else mret 0.

(** [if(storedCode == hash) { ... }] *)
Definition loop_match_code (hash : Z) : M unit :=
  code ← gets storedCode;
  if code =? hash then
    now ← millis;
    last ← gets codeMs;
    status ← gets relayStatus;
    (if (250 <? wrap32 (now - last)) && negb (lnot status =? 0)
     then digitalWrite RELAY_PIN HIGH ;;
          digitalWrite STATUS_LED HIGH ;;
          modify (set_relayStatus (lnot status))
     else skip) ;;
    now ← millis;
    modify (set_codeMs now)
  else skip.

Definition loop_debug (hash : Z) : M unit :=
  if DEBUG then
    Serial_print "Stored Code: " ;;
    code ← gets storedCode;
    Serial_println_hex code ;;
    Serial_print "Received Code: " ;;
    Serial_println_hex hash
  else skip.

(** [if (irrecv.decode(&results)) { ... }]; the local [saveMode] is
    assigned and never read. *)
Definition loop_receive : M unit :=
  received ← irrecv_decode;
  if (received : bool) then
    r ← gets results;
    let hash := decodeHash r in
    saveMode ← loop_save_code hash;
    loop_match_code hash ;;
    loop_debug hash ;;
    irrecv_resume
  else skip.

(** The relay times out. *)
Definition loop_relay_timeout : M unit :=
  now ← millis;
  last ← gets codeMs;
  time ← gets storedTime;
  status ← gets relayStatus;
  if (time <? wrap32 (now - last)) && negb (status =? 0) then
    digitalWrite STATUS_LED LOW ;;
    digitalWrite RELAY_PIN LOW ;;
    now ← millis;
    modify (set_codeMs now) ;;
    modify (set_relayStatus (lnot status))
  else skip.

Definition loop : M unit :=
  loop_increase_timeout ;;
  loop_receive ;;
  loop_relay_timeout.

(** ** Runs of the controller *)

(** Between two iterations the outside changes what it may: the input
    pins, the receiver, the time. *)
Definition env_step (w w' : World) : Prop :=
  storedCode w' = storedCode w /\ storedTime w' = storedTime w /\
  timeMs w' = timeMs w /\ codeMs w' = codeMs w /\
  relayStatus w' = relayStatus w /\ results w' = results w /\
  eeprom w' = eeprom w /\ port w' = port w /\ trace w' = trace w.

Inductive reachable : World -> Prop :=
  | reach_setup (w : World) : reachable (exec setup w)
  | reach_loop (w : World) : reachable w -> reachable (exec loop w)
  | reach_env (w w' : World) : reachable w -> env_step w w' -> reachable w'.

(** Indicator pulses in a trace: the times the status led is switched on. *)
Definition is_led_on (e : Event) : bool :=
  match e with
  | EvWrite pin level => (pin =? STATUS_LED) && level
  | _ => false
  end.

Definition led_pulses (tr : list Event) : nat := length (List.filter is_led_on tr).

(** A world after power-up, before [setup]: erased byte store, nothing
    received, both buttons released. *)
Definition power_up : World :=
  mkWorld 0 0 0 0 0 (mk_results [] 0) ∅ ∅ ∅ None 0 [] [].

(** ** Some worlds *)

(** A captured transmission; its fingerprint is 4119585043. *)
Definition pulsesA : list Z := [0; 9000; 4500; 560; 560; 560; 1690; 560; 560].

(** The adjust button is held, the timeout is 9500 and the last
    adjustment is 2000 ms ago. *)
Definition w_9500 : World :=
  mkWorld 0 9500 0 0 0 (mk_results [] 0) ∅ ∅ {[MEMORY_TIME_PIN := LOW]}
    None 2000 [] [].

(** The adjust button is released; the clock reads 5000. *)
Definition w_released : World :=
  mkWorld 0 5000 0 0 0 (mk_results [] 0) ∅ ∅ {[MEMORY_TIME_PIN := HIGH]}
    None 5000 [] [].

(** The relay is off and the last match is 1000 ms ago. *)
Definition w_match : World :=
  mkWorld 42 5000 0 0 0 (mk_results [] 0) ∅ ∅ ∅ None 1000 [] [].

(** The Learned Code is the fingerprint of [pulsesA], which has just been
    received again; the relay is off and the last match is exactly 250 ms
    ago. *)
Definition w_250 : World :=
  mkWorld 4119585043 5000 0 0 0 (mk_results [] 0) ∅ ∅ ∅
    (Some pulsesA) 250 [] [].

(** The relay is on, the timeout is 5000 and the last match is 5001 ms
    ago. *)
Definition w_expired : World :=
  mkWorld 42 5000 0 0 1 (mk_results [] 0) ∅
    {[RELAY_PIN := HIGH; STATUS_LED := HIGH]} ∅ None 5001 [] [].

(** The relay is on and the last match is 3000 ms ago. *)
Definition w_active : World :=
  mkWorld 42 5000 0 0 1 (mk_results [] 0) ∅
    {[RELAY_PIN := HIGH; STATUS_LED := HIGH]} ∅ None 3000 [] [].

(** A fresh board after [setup]; then [pulsesA] is received while the
    learn button is held. *)
Definition w_learn : World :=
  set_irrecv (Some pulsesA)
    (set_pin_in {[MEMORY_CODE_PIN := LOW]} (exec setup power_up)).

(** A matching transmission arrives with the relay off, 1000 ms after the
    last match. *)
Definition w_off_match : World :=
  mkWorld 4119585043 5000 0 0 0 (mk_results [] 0) ∅ ∅ ∅
    (Some pulsesA) 1000 [] [].

(** A matching transmission arrives with the relay on, 9000 ms after the
    last match: later than the timeout of 5000. *)
Definition w_held : World :=
  mkWorld 4119585043 5000 0 0 1 (mk_results [] 0) ∅
    {[RELAY_PIN := HIGH; STATUS_LED := HIGH]} ∅ (Some pulsesA) 9000 [] [].

(** A transmission other than the learned one arrives. *)
Definition w_other : World :=
  mkWorld 42 5000 0 0 0 (mk_results [] 0) ∅ ∅ ∅ (Some pulsesA) 1000 [] [].

(** The relay is on; the last match was 100 ms before the counter
    wrapped, and the counter reads 5000 again. *)
Definition w_wrapped : World :=
  mkWorld 42 5000 0 4294967196 1 (mk_results [] 0) ∅
    {[RELAY_PIN := HIGH; STATUS_LED := HIGH]} ∅ None 5000 [] [].

(** ** Invariants of the controller *)

(** The variables agree with the byte store: a restart would read the
    same Learned Code and arrive at the same Relay Timeout. *)
Definition persisted_ok (w : World) : Prop :=
  storedCode w = load_bytes sizeof_ulong ADDR_CODE (eeprom w) /\
  storedTime w =
    (let v := load_bytes sizeof_uint ADDR_TIME (eeprom w) in
     if (v =? 0) || (10000 <? v) then 5000 else v).

(** [relayStatus] and the level driven on the relay pin agree. *)
Definition relay_mirrors (w : World) : Prop :=
  (relayStatus w = 0 /\ port w !! RELAY_PIN <> Some HIGH) \/
  (relayStatus w = 1 /\ port w !! RELAY_PIN = Some HIGH).

(** ** Tools for the proofs *)

(** A predicate checked on every integer [acc * 2^n + z], [0 <= z < 2^n]. *)
Fixpoint all_bits (n : nat) (acc : Z) (f : Z -> bool) : bool :=
  match n with
  | O => f acc
  | S n' => all_bits n' (2 * acc) f && all_bits n' (2 * acc + 1) f
  end.

(** Non-negative finite doubles, and an integer that orders them. *)
Definition dbl_plain (f : spec_float) : bool :=
  match f with
  | S754_zero _ => true
  | S754_finite false m e => (Z.pos m <? 2 ^ 24) && (-200 <? e)
  | _ => false
  end.

Definition dbl_rank (f : spec_float) : Z :=
  match f with
  | S754_finite false m e => (e + 200) * 2 ^ 24 + Z.pos m
  | _ => 0
  end.

(** What is checked, by computation, for each 16-bit [a]: [a] converts to
    a plain double above that of [a - 1]; and [a * .8] is a plain double
    that lies between the doubles of the two integers around [4a/5]. *)
Definition dot8_check (a : Z) : bool :=
  let q := Dbl.of_Z a in
  let p := Dbl.mul q Dbl.dot8 in
  let k := (4 * a + 4) / 5 in
  dbl_plain q && dbl_plain p &&
  ((a =? 0) || (dbl_rank (Dbl.of_Z (a - 1)) <? dbl_rank q)) &&
  ((k =? 0) || (dbl_rank (Dbl.of_Z (k - 1)) <? dbl_rank p)) &&
  (dbl_rank p <=? dbl_rank (Dbl.of_Z k)).

(** * Properties *)

(** ** Machine integers *)

Lemma wrap32_range (z : Z) : 0 <= wrap32 z < 2 ^ 32.
Proof. unfold wrap32. apply Z.mod_pos_bound. lia. Qed.

Lemma lnot_test (z : Z) : negb (lnot z =? 0) = (z =? 0).
Proof. unfold lnot. destruct (z =? 0); reflexivity. Qed.

Lemma wrap16_small (z : Z) : 0 <= z < 2 ^ 16 -> wrap16 z = z.
Proof. intros H. unfold wrap16. apply Z.mod_small. exact H. Qed.

(** Unsigned subtraction measures elapsed time across the wrap of the
    counter: if [d] ms (less than 2^32) passed since the counter read
    [wrap32 t0], the difference of the two readings is [d]. *)
Lemma elapsed_wrap_safe (t0 d : Z) :
  0 <= d < 2 ^ 32 ->
  wrap32 (wrap32 (t0 + d) - wrap32 t0) = d.
Proof.
  intros Hd. unfold wrap32.
  rewrite <- Zminus_mod.
  replace (t0 + d - t0) with d by ring.
  apply Z.mod_small. exact Hd.
Qed.

(** ** Exhaustive checks *)

Lemma all_bits_spec (n : nat) :
  forall (acc : Z) (f : Z -> bool),
    all_bits n acc f = true ->
    forall z, 0 <= z < 2 ^ Z.of_nat n -> f (acc * 2 ^ Z.of_nat n + z) = true.
Proof.
  induction n as [|n IH]; intros acc f Hall z Hz.
  - change (2 ^ Z.of_nat 0) with 1 in *.
    replace (acc * 1 + z) with acc by lia. exact Hall.
  - simpl in Hall. apply andb_prop in Hall. destruct Hall as [H0 H1].
    rewrite Nat2Z.inj_succ, Z.pow_succ_r in * by lia.
    destruct (Z_lt_ge_dec z (2 ^ Z.of_nat n)) as [Hlo|Hhi].
    + replace (acc * (2 * 2 ^ Z.of_nat n) + z)
        with (2 * acc * 2 ^ Z.of_nat n + z) by ring.
      apply IH; [exact H0 | lia].
    + replace (acc * (2 * 2 ^ Z.of_nat n) + z)
        with ((2 * acc + 1) * 2 ^ Z.of_nat n + (z - 2 ^ Z.of_nat n)) by ring.
      apply IH; [exact H1 | lia].
Qed.

Lemma all_uint16 (f : Z -> bool) :
  all_bits 16 0 f = true -> forall z, 0 <= z < 2 ^ 16 -> f z = true.
Proof.
  intros Hall z Hz.
  replace z with (0 * 2 ^ Z.of_nat 16 + z) by lia.
  apply all_bits_spec; [exact Hall | exact Hz].
Qed.

(** ** The comparator *)

Lemma dbl_ltb_rank (f g : spec_float) :
  dbl_plain f = true -> dbl_plain g = true ->
  Dbl.ltb f g = (dbl_rank f <? dbl_rank g).
Proof.
  unfold Dbl.ltb, SFltb.
  destruct f as [sf| | |sf mf ef], g as [sg| | |sg mg eg]; simpl;
    try discriminate; intros Hf Hg.
  - reflexivity.
  - destruct sg; [discriminate|].
    apply andb_prop in Hg. destruct Hg as [Hm He].
    apply Z.ltb_lt in Hm, He. symmetry. apply Z.ltb_lt. nia.
  - destruct sf; [discriminate|].
    apply andb_prop in Hf. destruct Hf as [Hm He].
    apply Z.ltb_lt in Hm, He. symmetry. apply Z.ltb_ge. nia.
  - destruct sf; [discriminate|]. destruct sg; [discriminate|].
    apply andb_prop in Hf. destruct Hf as [Hmf Hef].
    apply andb_prop in Hg. destruct Hg as [Hmg Heg].
    apply Z.ltb_lt in Hmf, Hef, Hmg, Heg.
    destruct (Z.compare_spec ef eg) as [Heq|Hlt|Hgt].
    + subst eg. rewrite Pos.compare_cont_spec. simpl.
      change (Pos.compare mf mg) with (Z.compare (Z.pos mf) (Z.pos mg)).
      destruct (Z.compare_spec (Z.pos mf) (Z.pos mg)) as [E|L|G];
        symmetry; [apply Z.ltb_ge | apply Z.ltb_lt | apply Z.ltb_ge]; lia.
    + symmetry. apply Z.ltb_lt. nia.
    + symmetry. apply Z.ltb_ge. nia.
Qed.

Lemma dot8_check_all : all_bits 16 0 dot8_check = true.
Proof. vm_compute. reflexivity. Qed.

Lemma dot8_check_elim (a : Z) :
  0 <= a < 2 ^ 16 ->
  let q := Dbl.of_Z a in
  let p := Dbl.mul q Dbl.dot8 in
  let k := (4 * a + 4) / 5 in
  dbl_plain q = true /\ dbl_plain p = true /\
  (a <> 0 -> dbl_rank (Dbl.of_Z (a - 1)) < dbl_rank q) /\
  (k <> 0 -> dbl_rank (Dbl.of_Z (k - 1)) < dbl_rank p) /\
  dbl_rank p <= dbl_rank (Dbl.of_Z k).
Proof.
  intros Ha q p k.
  pose proof (all_uint16 dot8_check dot8_check_all a Ha) as H.
  unfold dot8_check in H. fold q p k in H.
  rewrite !andb_true_iff, !orb_true_iff in H.
  rewrite !Z.eqb_eq, !Z.ltb_lt, Z.leb_le in H.
  destruct H as ((((Hq & Hp) & Hpred) & Hlo) & Hhi).
  repeat split; try assumption; intros Hne.
  - destruct Hpred as [E|L]; [contradiction | exact L].
  - destruct Hlo as [E|L]; [contradiction | exact L].
Qed.

(** Converting 16-bit integers to [double] keeps their order. *)
Lemma of_Z_rank_mono (a b : Z) :
  0 <= a -> a <= b -> b < 2 ^ 16 ->
  dbl_rank (Dbl.of_Z a) <= dbl_rank (Dbl.of_Z b).
Proof.
  intros Ha Hab. revert b Hab.
  apply (Zlt_lower_bound_rec
           (fun b => b < 2 ^ 16 -> dbl_rank (Dbl.of_Z a) <= dbl_rank (Dbl.of_Z b)) a).
  intros b IH Hab Hb.
  destruct (Z.eq_dec a b) as [->|Hne]; [lia|].
  assert (Hstep : dbl_rank (Dbl.of_Z (b - 1)) < dbl_rank (Dbl.of_Z b)).
  { apply (dot8_check_elim b); lia. }
  assert (Hprev : dbl_rank (Dbl.of_Z a) <= dbl_rank (Dbl.of_Z (b - 1))).
  { apply IH; lia. }
  lia.
Qed.

(** On 16-bit values the floating-point test [n < a * .8] decides exactly
    [5 * n < 4 * a]: rounding never moves the product across an integer. *)
Lemma dot8_test_exact (a n : Z) :
  0 <= a < 2 ^ 16 -> 0 <= n < 2 ^ 16 ->
  Dbl.ltb (Dbl.of_Z n) (Dbl.mul (Dbl.of_Z a) Dbl.dot8) = (5 * n <? 4 * a).
Proof.
  intros Ha Hn.
  destruct (dot8_check_elim a Ha) as (_ & Hp & _ & Hlo & Hhi).
  destruct (dot8_check_elim n Hn) as (Hq & _).
  rewrite dbl_ltb_rank by assumption.
  set (k := (4 * a + 4) / 5) in *.
  assert (Hk : 5 * k <= 4 * a + 4 < 5 * k + 5).
  { unfold k. pose proof (Z.div_mod (4 * a + 4) 5).
    pose proof (Z.mod_pos_bound (4 * a + 4) 5). lia. }
  destruct (Z.ltb_spec (5 * n) (4 * a)) as [Hlt|Hge].
  - apply Z.ltb_lt.
    assert (k <> 0) by lia.
    pose proof (of_Z_rank_mono n (k - 1)). lia.
  - apply Z.ltb_ge.
    pose proof (of_Z_rank_mono k n). lia.
Qed.

(** [compare] on 16-bit values, in exact arithmetic. *)
Lemma compare_exact (oldval newval : Z) :
  0 <= oldval < 2 ^ 16 -> 0 <= newval < 2 ^ 16 ->
  compare oldval newval =
    if 5 * newval <? 4 * oldval then 0
    else if 5 * oldval <? 4 * newval then 2
    else 1.
Proof.
  intros Ho Hn. unfold compare.
  rewrite (dot8_test_exact oldval newval Ho Hn).
  rewrite (dot8_test_exact newval oldval Hn Ho).
  reflexivity.
Qed.

(** C9. For all unsigned (16-bit) inputs [a], [b] with [a > 0] and [b > 0],
    [compare a b] is one of the three distinct values 0, 1 and 2, chosen by
    the 20% thresholds [new < old * 0.8] (then 0) and [old < new * 0.8]
    (then 2), and [compare a a = 1]. *)
Theorem compare_consistent (a b : Z) :
  0 < a < 2 ^ 16 -> 0 < b < 2 ^ 16 ->
  (compare a b = 0 \/ compare a b = 1 \/ compare a b = 2) /\
  (compare a b = 0 <-> 5 * b < 4 * a) /\
  (compare a b = 2 <-> 5 * a < 4 * b) /\
  compare a a = 1.
Proof.
  intros Ha Hb.
  rewrite (compare_exact a b) by lia.
  rewrite (compare_exact a a) by lia.
  destruct (Z.ltb_spec (5 * b) (4 * a)), (Z.ltb_spec (5 * a) (4 * b)),
    (Z.ltb_spec (5 * a) (4 * a)); try lia;
    repeat split; intros; try lia; auto.
Qed.

Lemma compare_consistent_witness :
  (compare 560 1690 = 0 \/ compare 560 1690 = 1 \/ compare 560 1690 = 2) /\
  (compare 560 1690 = 0 <-> 5 * 1690 < 4 * 560) /\
  (compare 560 1690 = 2 <-> 5 * 560 < 4 * 1690) /\
  compare 560 560 = 1.
Proof. apply (compare_consistent 560 1690); lia. Defined.

(** ** The fingerprint *)

Lemma decodeHash_loop_fold (pulses : list Z) (n : nat) :
  forall (fuel k : nat) (hash : Z),
    (n <= fuel)%nat ->
    (k + 2 + n = length pulses)%nat ->
    decodeHash_loop fuel (results_of pulses) (Z.of_nat k) hash =
    fold_left
      (fun hash i =>
         Z.lxor ((hash * 16777619) mod 2 ^ 32)
                (compare (nth i pulses 0) (nth (i + 2)%nat pulses 0)))
      (seq k n) hash.
Proof.
  induction n as [|n IH]; intros fuel k hash Hfuel Hlen.
  - simpl. destruct fuel as [|fuel]; simpl; [reflexivity|].
    destruct (Z.ltb_spec (Z.of_nat k + 2) (Z.of_nat (length pulses))); [lia|].
    reflexivity.
  - destruct fuel as [|fuel]; [lia|].
    cbn [decodeHash_loop seq fold_left].
    cbn [results_of rawlen].
    destruct (Z.ltb_spec (Z.of_nat k + 2) (Z.of_nat (length pulses))); [|lia].
    unfold rawbuf_at. cbn [results_of rawbuf].
    rewrite Nat2Z.id.
    replace (Z.to_nat (Z.of_nat k + 2)) with (k + 2)%nat by lia.
    replace (Z.of_nat k + 1) with (Z.of_nat (S k)) by lia.
    rewrite (IH fuel (S k)) by lia.
    reflexivity.
Qed.

(** The loop needs no more fuel than it is given by [decodeHash]: any
    larger amount yields the same hash. *)
Lemma decodeHash_fuel (pulses : list Z) (fuel : nat) :
  (length pulses <= fuel)%nat ->
  decodeHash_loop fuel (results_of pulses) 1 FNV_BASIS_32 =
  decodeHash (results_of pulses).
Proof.
  intros Hfuel. unfold decodeHash. cbn [results_of rawlen].
  rewrite Nat2Z.id.
  destruct (le_lt_dec 3 (length pulses)) as [Hge|Hlt].
  - change 1 with (Z.of_nat 1).
    rewrite !(decodeHash_loop_fold pulses (length pulses - 3)) by lia.
    reflexivity.
  - destruct fuel as [|fuel], (length pulses) as [|[|[|l]]] eqn:E;
      try lia; simpl; try reflexivity;
      repeat match goal with
      | |- context [?a <? ?b] => destruct (Z.ltb_spec a b); try lia
      end; reflexivity.
Qed.

(** C2. For every pulse sequence, [decodeHash] equals the reference
    definition: from the FNV-32 basis, the symbols
    [compare seq[i] seq[i+2]] for [i] from 1 to [L - 3] folded by
    [hash = (hash * 16777619) XOR symbol] modulo 2^32; for [L < 3] the
    result is the basis constant 2166136261. *)
Theorem decodeHash_refines (pulses : list Z) :
  decodeHash (results_of pulses) = fingerprint_spec pulses /\
  ((length pulses < 3)%nat -> decodeHash (results_of pulses) = 2166136261).
Proof.
  assert (Href : decodeHash (results_of pulses) = fingerprint_spec pulses).
  { unfold decodeHash, fingerprint_spec. cbn [results_of rawlen].
    rewrite Nat2Z.id.
    destruct (le_lt_dec 3 (length pulses)) as [Hge|Hlt].
    - change 1 with (Z.of_nat 1).
      rewrite (decodeHash_loop_fold pulses (length pulses - 3)) by lia.
      reflexivity.
    - replace (length pulses - 3)%nat with 0%nat by lia.
      destruct (length pulses) as [|[|[|l]]] eqn:E; try lia; simpl;
        try rewrite E; simpl; reflexivity. }
  split; [exact Href|].
  intros Hlt. rewrite Href. unfold fingerprint_spec.
  replace (length pulses - 3)%nat with 0%nat by lia.
  reflexivity.
Qed.

Lemma decodeHash_refines_witness :
  decodeHash (results_of [9000; 4500]) = 2166136261.
Proof. apply (proj2 (decodeHash_refines [9000; 4500])). simpl. lia. Defined.

(** ** Running commands *)

Arguments wrap32 : simpl never.
Arguments wrap16 : simpl never.
Arguments decodeHash : simpl never.

Ltac run :=
  unfold loop, loop_increase_timeout, loop_receive, loop_save_code,
    loop_match_code, loop_debug, loop_relay_timeout, saveTimeout, blink,
    setup, digitalWrite, digitalRead, pinMode, millis, delay,
    Serial_begin, Serial_print, Serial_println_hex,
    irrecv_enableIRIn, irrecv_decode, irrecv_resume,
    EEPROM_writeAnything, EEPROM_readAnything,
    exec, eval, gets, modify, skip, mbind, M_bind, mret, M_ret in *;
  cbn in *.

Ltac branch :=
  match goal with
  | |- context [match irrecv ?w with _ => _ end] => destruct (irrecv w) eqn:?
  | |- context [if ?c then _ else _] => destruct c eqn:?
  end; cbn in *.

Ltac pins :=
  unfold RELAY_PIN, STATUS_LED;
  repeat (rewrite lookup_insert_eq || rewrite lookup_insert_ne by lia);
  reflexivity.

Lemma exec_bind {A B : Type} (c : M A) (k : A -> M B) (w : World) :
  exec (c ≫= k) w = exec (k (eval c w)) (exec c w).
Proof. unfold exec, eval, mbind, M_bind. destruct (c w). reflexivity. Qed.

Lemma exec_loop (w : World) :
  exec loop w =
  exec loop_relay_timeout (exec loop_receive (exec loop_increase_timeout w)).
Proof. unfold loop. rewrite !exec_bind. reflexivity. Qed.

(** ** The byte store *)

Lemma Z_of_byte_range (b : byte) : 0 <= Z_of_byte b < 256.
Proof.
  unfold Z_of_byte. pose proof (Byte.to_N_bounded b) as H. lia.
Qed.

Lemma Z_of_byte_of_Z (z : Z) : Z_of_byte (byte_of_Z z) = z mod 256.
Proof.
  unfold Z_of_byte, byte_of_Z.
  pose proof (Z.mod_pos_bound z 256 ltac:(lia)) as Hr.
  destruct (Byte.of_N (Z.to_N (z mod 256))) as [b|] eqn:E.
  - apply Byte.to_of_N in E. cbn. rewrite E. lia.
  - apply Byte.of_N_None_iff in E. lia.
Qed.

Lemma load_bytes_range (size : nat) :
  forall (ee : Z) (m : gmap Z byte),
    0 <= load_bytes size ee m < 256 ^ Z.of_nat size.
Proof.
  induction size as [|size IH]; intros ee m.
  - cbn. lia.
  - cbn [load_bytes]. rewrite Nat2Z.inj_succ, Z.pow_succ_r by lia.
    pose proof (Z_of_byte_range (EEPROM_read m ee)).
    pose proof (IH (ee + 1) m). lia.
Qed.

Lemma read_store_other (size : nat) :
  forall (ee value a : Z) (m : gmap Z byte),
    a < ee \/ ee + Z.of_nat size <= a ->
    EEPROM_read (store_bytes size ee value m) a = EEPROM_read m a.
Proof.
  induction size as [|size IH]; intros ee value a m Ha.
  - reflexivity.
  - cbn [store_bytes]. rewrite IH by lia.
    unfold EEPROM_read. rewrite lookup_insert_ne by lia. reflexivity.
Qed.

(** Writing one value leaves the bytes of another, at a disjoint offset,
    as they were. *)
Lemma load_store_other (size' : nat) :
  forall (ee' : Z) (size : nat) (ee value : Z) (m : gmap Z byte),
    ee' + Z.of_nat size' <= ee \/ ee + Z.of_nat size <= ee' ->
    load_bytes size' ee' (store_bytes size ee value m) = load_bytes size' ee' m.
Proof.
  induction size' as [|size' IH]; intros ee' size ee value m Hd.
  - reflexivity.
  - cbn [load_bytes]. rewrite read_store_other by lia.
    rewrite IH by lia. reflexivity.
Qed.

(** The value written is the value read back. *)
Lemma load_store_same (size : nat) :
  forall (ee value : Z) (m : gmap Z byte),
    load_bytes size ee (store_bytes size ee value m) =
    value mod 256 ^ Z.of_nat size.
Proof.
  induction size as [|size IH]; intros ee value m.
  - cbn. rewrite Z.mod_1_r. reflexivity.
  - cbn [load_bytes store_bytes].
    rewrite read_store_other by lia.
    rewrite IH.
    unfold EEPROM_read. rewrite lookup_insert_eq. cbn.
    rewrite Z_of_byte_of_Z.
    rewrite Nat2Z.inj_succ, Z.pow_succ_r by lia.
    rewrite Z.rem_mul_r by lia. reflexivity.
Qed.

Arguments store_bytes : simpl never.
Arguments load_bytes : simpl never.

(** ** Startup *)

Lemma setup_storedTime (w : World) :
  let v := load_bytes sizeof_uint ADDR_TIME (eeprom w) in
  0 <= v /\
  storedTime (exec setup w) = (if (v =? 0) || (10000 <? v) then 5000 else v).
Proof.
  intros v. split; [apply (load_bytes_range sizeof_uint)|].
  run. fold v. change MAX_TIME with 10000.
  destruct ((v =? 0) || (10000 <? v)); reflexivity.
Qed.

(** C4. At startup, with [v] the Relay Timeout read from the byte store:
    the effective timeout is the default 5000 if [v = 0] or [v > 10000],
    and [v] unchanged if [v] is in (0, 10000]. Nothing else is corrected:
    the Learned Code is the stored one as read, the byte store and the
    other variables are left as they were. *)
Theorem setup_timeout (w : World) :
  let v := load_bytes sizeof_uint ADDR_TIME (eeprom w) in
  let w' := exec setup w in
  0 <= v /\
  storedTime w' = (if (v =? 0) || (10000 <? v) then 5000 else v) /\
  storedCode w' = load_bytes sizeof_ulong ADDR_CODE (eeprom w) /\
  eeprom w' = eeprom w /\
  timeMs w' = timeMs w /\ codeMs w' = codeMs w /\
  relayStatus w' = relayStatus w.
Proof.
  intros v w'. subst w'.
  split; [apply (load_bytes_range sizeof_uint)|].
  run. fold v. change MAX_TIME with 10000.
  destruct ((v =? 0) || (10000 <? v)); cbn; repeat split; reflexivity.
Qed.

(** ** Saving the timeout *)

Lemma saveTimeout_stores (newTime : Z) (w : World) :
  let stored := if MAX_TIME <? newTime then 1000 else newTime in
  let w' := exec (saveTimeout newTime) w in
  storedTime w' = stored /\
  eeprom w' = store_bytes sizeof_uint ADDR_TIME stored (eeprom w) /\
  storedCode w' = storedCode w /\ timeMs w' = timeMs w /\
  codeMs w' = codeMs w /\ relayStatus w' = relayStatus w /\
  irrecv w' = irrecv w /\ pin_in w' = pin_in w /\ results w' = results w.
Proof.
  run. branch; repeat split; reflexivity.
Qed.

Lemma saveTimeout_trace (newTime : Z) (w : World) :
  trace (exec (saveTimeout newTime) w) =
  trace w ++ (if MAX_TIME <? newTime then blink_events ++ blink_events
              else blink_events).
Proof.
  run. branch; rewrite <- ?app_assoc; reflexivity.
Qed.

(** C8 (as the code has it). A timeout increase that exceeds the 10000 ms
    ceiling is acknowledged with two indicator pulses, an increase within
    the ceiling with one: the reset is told apart by the blink pattern. *)
Theorem saveTimeout_pulses (newTime : Z) (w : World) :
  emitted (saveTimeout newTime) w =
    (if 10000 <? newTime then blink_events ++ blink_events else blink_events) /\
  led_pulses (emitted (saveTimeout newTime) w) =
    (if 10000 <? newTime then 2%nat else 1%nat).
Proof.
  unfold emitted. rewrite saveTimeout_trace, drop_app_length.
  change MAX_TIME with 10000.
  destruct (10000 <? newTime); split; reflexivity.
Qed.

(** C8, as stated, fails: raising 9500 to 10500 (reset) blinks twice,
    raising 5000 to 6000 blinks once. *)
Lemma reset_blinks_differently :
  led_pulses (emitted (saveTimeout (9500 + 1000)) power_up) <>
  led_pulses (emitted (saveTimeout (5000 + 1000)) power_up).
Proof. vm_compute. discriminate. Qed.

(** ** The statements of [loop], one by one *)

Lemma increase_timeout_frame (w : World) :
  let w' := exec loop_increase_timeout w in
  storedCode w' = storedCode w /\ codeMs w' = codeMs w /\
  relayStatus w' = relayStatus w /\ irrecv w' = irrecv w /\
  pin_in w' = pin_in w /\ results w' = results w.
Proof.
  run. repeat branch; repeat split; reflexivity.
Qed.

Lemma increase_timeout_storedTime (w : World) :
  let w' := exec loop_increase_timeout w in
  (storedTime w' = storedTime w /\ eeprom w' = eeprom w) \/
  (exists stored,
     stored = (if MAX_TIME <? wrap16 (storedTime w + 1000) then 1000
               else wrap16 (storedTime w + 1000)) /\
     storedTime w' = stored /\
     eeprom w' = store_bytes sizeof_uint ADDR_TIME stored (eeprom w)).
Proof.
  run. repeat branch; try (left; split; reflexivity);
    right; eexists; repeat split; reflexivity.
Qed.

Lemma receive_frame (w : World) :
  let w' := exec loop_receive w in
  storedTime w' = storedTime w /\ timeMs w' = timeMs w /\
  (eeprom w' = eeprom w \/
   exists hash, eeprom w' = store_bytes sizeof_ulong ADDR_CODE hash (eeprom w)).
Proof.
  run. repeat branch; repeat split; try reflexivity;
    try (left; reflexivity); right; eexists; reflexivity.
Qed.

Lemma relay_timeout_frame (w : World) :
  let w' := exec loop_relay_timeout w in
  storedCode w' = storedCode w /\ storedTime w' = storedTime w /\
  timeMs w' = timeMs w /\ eeprom w' = eeprom w.
Proof.
  run. repeat branch; repeat split; reflexivity.
Qed.

(** The Relay Timeout and its persisted copy are what the first statement
    of [loop] left. *)
Lemma loop_storedTime (w : World) :
  let w1 := exec loop_increase_timeout w in
  storedTime (exec loop w) = storedTime w1 /\
  load_bytes sizeof_uint ADDR_TIME (eeprom (exec loop w)) =
  load_bytes sizeof_uint ADDR_TIME (eeprom w1).
Proof.
  intros w1. rewrite exec_loop. fold w1.
  destruct (relay_timeout_frame (exec loop_receive w1)) as (_ & Ht & _ & He).
  destruct (receive_frame w1) as (Ht1 & _ & He1).
  rewrite Ht, He, Ht1. split; [reflexivity|].
  destruct He1 as [->|[hash ->]]; [reflexivity|].
  apply load_store_other. right.
  unfold ADDR_CODE, ADDR_TIME, sizeof_ulong. lia.
Qed.

(** C3. For every current Relay Timeout [t] (any value that does not wrap
    the 16-bit sum, in particular every value of the valid range), a
    timeout-increase action stores [t + 1000] if that does not exceed
    10000 and exactly 1000 otherwise; the value is persisted and the
    in-memory timeout is the same value. *)
Theorem timeout_increase (w : World) :
  let t := storedTime w in
  let stored := if t + 1000 <=? 10000 then t + 1000 else 1000 in
  eval (digitalRead MEMORY_TIME_PIN) w = LOW ->
  1000 < wrap32 (eval millis w - timeMs w) ->
  0 <= t < 2 ^ 16 - 1000 ->
  storedTime (exec loop w) = stored /\
  load_bytes sizeof_uint ADDR_TIME (eeprom (exec loop w)) = stored.
Proof.
  intros t stored Hpin Hdue Ht.
  destruct (loop_storedTime w) as [-> ->].
  assert (Hs : 0 <= stored < 2 ^ 16).
  { unfold stored. destruct (Z.leb_spec (t + 1000) 10000); lia. }
  assert (Hw : (if MAX_TIME <? wrap16 (t + 1000) then 1000
                else wrap16 (t + 1000)) = stored).
  { rewrite wrap16_small by lia. unfold stored, MAX_TIME.
    destruct (Z.ltb_spec 10000 (t + 1000)), (Z.leb_spec (t + 1000) 10000);
      lia. }
  revert Hpin Hdue. run. intros Hpin Hdue. rewrite Hpin. cbn.
  apply Z.ltb_lt in Hdue. rewrite Hdue. cbn.
  fold t. clearbody stored. revert Hw.
  destruct (MAX_TIME <? wrap16 (t + 1000)); cbn; intros Hw;
    (split; [exact Hw|]);
    rewrite (load_store_same sizeof_uint), Hw; apply Z.mod_small; exact Hs.
Qed.

Lemma timeout_increase_witness :
  storedTime (exec loop w_9500) = 1000 /\
  load_bytes sizeof_uint ADDR_TIME (eeprom (exec loop w_9500)) = 1000.
Proof.
  apply (timeout_increase w_9500); vm_compute; try reflexivity;
    split; try reflexivity; discriminate.
Defined.

(** C7 (as the code has it). The "last adjust" timestamp is set to the
    current time in every iteration in which the adjust button reads
    pressed, whether or not the 1000 ms branch fired; in an iteration in
    which the button reads released it is left as it was. *)
Theorem timeMs_update (w : World) :
  timeMs (exec loop w) =
    if Bool.eqb (eval (digitalRead MEMORY_TIME_PIN) w) LOW
    then clock (exec loop_increase_timeout w)
    else timeMs w.
Proof.
  rewrite exec_loop.
  destruct (relay_timeout_frame
              (exec loop_receive (exec loop_increase_timeout w)))
    as (_ & _ & -> & _).
  destruct (receive_frame (exec loop_increase_timeout w)) as (_ & -> & _).
  run. repeat branch; reflexivity.
Qed.

(** C7, as stated, fails: with the button released the timestamp keeps
    its old value 0 while the clock reads 5000. *)
Lemma timeMs_not_updated_when_released :
  eval (digitalRead MEMORY_TIME_PIN) w_released = HIGH /\
  eval millis w_released = 5000 /\
  timeMs (exec loop w_released) = 0 /\
  timeMs (exec loop w_released) <> clock (exec loop w_released).
Proof. vm_compute. repeat split; discriminate. Qed.

(** C5 (as the code has it). When the received Fingerprint equals the
    Learned Code, the relay and the indicator are turned on exactly when
    the relay is off and more than 250 ms (strictly) have elapsed since the
    last recorded match; the "last match" timestamp is set to the current
    time in either case. *)
Theorem match_code_spec (hash : Z) (w : World) :
  storedCode w = hash ->
  let elapsed := wrap32 (eval millis w - codeMs w) in
  let w' := exec (loop_match_code hash) w in
  (relayStatus w = 0 /\ 250 < elapsed ->
   relayStatus w' = 1 /\
   port w' !! RELAY_PIN = Some HIGH /\ port w' !! STATUS_LED = Some HIGH) /\
  (~ (relayStatus w = 0 /\ 250 < elapsed) ->
   relayStatus w' = relayStatus w /\ port w' = port w /\ trace w' = trace w) /\
  codeMs w' = clock w'.
Proof.
  intros Hcode elapsed w'. subst elapsed w'.
  run. rewrite Hcode, Z.eqb_refl. cbn. rewrite lnot_test.
  destruct (Z.ltb_spec 250
              (wrap32 (wrap32 (clock w + hd 0 (ticks w)) - codeMs w)))
    as [Hlt|Hge];
    destruct (Z.eqb_spec (relayStatus w) 0) as [Hoff|Hon]; cbn;
    try rewrite Hoff; cbn;
    (split; [intros [Hs Hd] | split; [intros Hn | reflexivity]]);
    try (exfalso; (contradiction || lia || (apply Hn; split; [assumption | lia])));
    repeat split; try reflexivity; pins.
Qed.

Lemma match_code_spec_witness :
  relayStatus (exec (loop_match_code 42) w_match) = 1 /\
  port (exec (loop_match_code 42) w_match) !! RELAY_PIN = Some HIGH /\
  port (exec (loop_match_code 42) w_match) !! STATUS_LED = Some HIGH.
Proof.
  apply (proj1 (match_code_spec 42 w_match eq_refl)).
  vm_compute. split; reflexivity.
Defined.

(** C5, as stated, fails at the boundary: the Learned Code is received
    with the relay off exactly 250 ms after the last match, and the relay
    stays off. *)
Lemma relay_stays_off_at_250ms :
  storedCode w_250 = decodeHash (results_of pulsesA) /\
  relayStatus w_250 = 0 /\
  250 <= wrap32 (eval millis w_250 - codeMs w_250) /\
  relayStatus (exec loop w_250) = 0 /\
  port (exec loop w_250) !! RELAY_PIN = None.
Proof. vm_compute. repeat split; discriminate. Qed.

(** C6. Whenever the last statement of an iteration finds the relay on
    and more than Relay Timeout ms elapsed since the "last match"
    timestamp (by unsigned subtraction modulo 2^32), it turns the relay and
    the indicator off, sets Relay State to off and sets the timestamp to
    the current time; hence at the end of any iteration the relay is never
    on with more than Relay Timeout ms elapsed since the last match. *)
Theorem relay_timeout_spec (w : World) :
  (relayStatus w <> 0 ->
   storedTime w < wrap32 (eval millis w - codeMs w) ->
   let w' := exec loop_relay_timeout w in
   relayStatus w' = 0 /\
   port w' !! RELAY_PIN = Some LOW /\ port w' !! STATUS_LED = Some LOW /\
   codeMs w' = clock w') /\
  (let w' := exec loop w in
   relayStatus w' <> 0 -> wrap32 (clock w' - codeMs w') <= storedTime w').
Proof.
  split.
  - intros Hon Hdue. run.
    apply Z.ltb_lt in Hdue. rewrite Hdue.
    destruct (Z.eqb_spec (relayStatus w) 0) as [|_]; [contradiction|]. cbn.
    unfold lnot. destruct (Z.eqb_spec (relayStatus w) 0); [contradiction|].
    repeat split; try reflexivity; pins.
  - rewrite exec_loop.
    generalize (exec loop_receive (exec loop_increase_timeout w)).
    clear w. intros w. run.
    destruct (Z.ltb_spec (storedTime w)
                (wrap32 (wrap32 (clock w + hd 0 (ticks w)) - codeMs w)))
      as [Hlt|Hge];
      destruct (Z.eqb_spec (relayStatus w) 0) as [Hoff|Hon]; cbn;
      intros Hafter; try contradiction; try exact Hge.
    unfold lnot in Hafter.
    destruct (Z.eqb_spec (relayStatus w) 0); [contradiction|].
    exfalso. apply Hafter. reflexivity.
Qed.

Lemma relay_timeout_spec_witness :
  (relayStatus (exec loop_relay_timeout w_expired) = 0 /\
   port (exec loop_relay_timeout w_expired) !! RELAY_PIN = Some LOW /\
   port (exec loop_relay_timeout w_expired) !! STATUS_LED = Some LOW /\
   codeMs (exec loop_relay_timeout w_expired) =
   clock (exec loop_relay_timeout w_expired)) /\
  wrap32 (clock (exec loop w_active) - codeMs (exec loop w_active))
    <= storedTime (exec loop w_active).
Proof.
  split.
  - apply (proj1 (relay_timeout_spec w_expired)); vm_compute;
      [discriminate | reflexivity].
  - apply (proj2 (relay_timeout_spec w_active)). vm_compute. discriminate.
Defined.

(** C10. After [setup], the in-memory Relay Timeout is in (0, 10000], and
    every iteration of [loop] (and whatever the outside does in between)
    keeps it there. *)
Theorem storedTime_invariant (w : World) :
  reachable w -> 0 < storedTime w <= 10000.
Proof.
  induction 1 as [w | w Hr IH | w w' Hr IH Henv].
  - destruct (setup_storedTime w) as (Hv & ->).
    destruct (Z.eqb_spec (load_bytes sizeof_uint ADDR_TIME (eeprom w)) 0);
      destruct (Z.ltb_spec 10000 (load_bytes sizeof_uint ADDR_TIME (eeprom w)));
      cbn; lia.
  - destruct (loop_storedTime w) as [-> _].
    destruct (increase_timeout_storedTime w) as [[-> _]|(stored & Hs & -> & _)];
      [exact IH|].
    subst stored. rewrite wrap16_small by lia. unfold MAX_TIME.
    destruct (Z.ltb_spec 10000 (storedTime w + 1000)); lia.
  - destruct Henv as (_ & -> & _). exact IH.
Qed.

Lemma storedTime_invariant_witness :
  0 < storedTime (exec loop (exec setup power_up)) <= 10000.
Proof.
  apply (storedTime_invariant (exec loop (exec setup power_up))).
  apply reach_loop, reach_setup.
Defined.

(** ** Learning a code *)

Lemma compare_values (oldval newval : Z) :
  compare oldval newval = 0 \/ compare oldval newval = 1 \/
  compare oldval newval = 2.
Proof.
  unfold compare.
  destruct (Dbl.ltb _ _); [auto|]. destruct (Dbl.ltb _ _); auto.
Qed.

Lemma hash_step_range (hash value : Z) :
  0 <= value <= 2 -> 0 <= hash_step hash value < 2 ^ 32.
Proof.
  intros Hv. unfold hash_step.
  pose proof (wrap32_range (hash * FNV_PRIME_32)) as Hw.
  set (x := wrap32 (hash * FNV_PRIME_32)) in *.
  assert (H0 : 0 <= Z.lxor x value) by (apply Z.lxor_nonneg; lia).
  split; [exact H0|].
  destruct (Z.eq_dec (Z.lxor x value) 0) as [->|Hne]; [lia|].
  apply Z.log2_lt_pow2; [lia|].
  eapply Z.le_lt_trans; [apply Z.log2_lxor; lia|].
  apply Z.max_lub_lt.
  - destruct (Z.eq_dec x 0) as [->|]; [cbn; lia|].
    apply Z.log2_lt_pow2; lia.
  - assert (value = 0 \/ value = 1 \/ value = 2) as [ -> | [ -> | -> ] ] by lia;
      cbn; lia.
Qed.

Lemma decodeHash_loop_range (fuel : nat) (r : decode_results) :
  forall i hash,
    0 <= hash < 2 ^ 32 -> 0 <= decodeHash_loop fuel r i hash < 2 ^ 32.
Proof.
  induction fuel as [|fuel IH]; intros i hash Hh; cbn [decodeHash_loop].
  - exact Hh.
  - destruct (i + 2 <? rawlen r); [|exact Hh].
    apply IH, hash_step_range.
    destruct (compare_values (rawbuf_at r i) (rawbuf_at r (i + 2)))
      as [ -> | [ -> | -> ] ]; lia.
Qed.

(** A fingerprint is a 32-bit value. *)
Lemma decodeHash_range (r : decode_results) : 0 <= decodeHash r < 2 ^ 32.
Proof.
  unfold decodeHash. apply decodeHash_loop_range. unfold FNV_BASIS_32. lia.
Qed.

(** What a learn action does, in general: the fingerprint becomes the
    Learned Code and is persisted; and if the relay is off and the
    millisecond counter does not wrap meanwhile, the relay is switched on,
    the 400 ms of the acknowledging blink being more than the 250 ms
    asked of a match. *)
Lemma learn_receive (w : World) (pulses : list Z) :
  irrecv w = Some pulses ->
  eval (digitalRead MEMORY_CODE_PIN) w = LOW ->
  let hash := decodeHash (results_of pulses) in
  let w' := exec loop_receive w in
  storedCode w' = hash /\
  load_bytes sizeof_ulong ADDR_CODE (eeprom w') = hash /\
  (relayStatus w = 0 ->
   0 <= codeMs w <= clock w -> 0 <= hd 0 (ticks w) ->
   clock w + 400 + hd 0 (ticks w) < 2 ^ 32 ->
   relayStatus w' = 1 /\ port w' !! RELAY_PIN = Some HIGH).
Proof.
  intros Hir Hpin hash w'. subst w'.
  revert Hpin. run. rewrite Hir. cbn. intros Hpin. rewrite Hpin. cbn.
  fold hash. rewrite Z.eqb_refl. cbn. rewrite lnot_test.
  assert (Hload : load_bytes sizeof_ulong ADDR_CODE
                    (store_bytes sizeof_ulong ADDR_CODE hash (eeprom w)) = hash).
  { rewrite load_store_same. apply Z.mod_small.
    apply (decodeHash_range (results_of pulses)). }
  assert (Hon : relayStatus w = 0 ->
                0 <= codeMs w <= clock w -> 0 <= hd 0 (ticks w) ->
                clock w + 400 + hd 0 (ticks w) < 2 ^ 32 ->
                (250 <? wrap32 (wrap32 (wrap32 (wrap32 (clock w + 200) + 200)
                                        + hd 0 (ticks w)) - codeMs w)) = true).
  { intros _ Hc Ht Hb. apply Z.ltb_lt. unfold wrap32.
    rewrite !(Z.mod_small (clock w + 200)) by lia.
    rewrite !(Z.mod_small (clock w + 200 + 200)) by lia.
    rewrite !(Z.mod_small (clock w + 200 + 200 + hd 0 (ticks w))) by lia.
    rewrite Z.mod_small by lia. lia. }
  destruct (250 <? _) eqn:Hdue;
    destruct (Z.eqb_spec (relayStatus w) 0) as [Hoff|Hn]; cbn;
    (split; [reflexivity|]); (split; [exact Hload|]);
    intros Hs Hc Ht Hb; try contradiction;
    try (specialize (Hon Hs Hc Ht Hb); discriminate).
  rewrite Hoff. split; [reflexivity|]. pins.
Qed.

Lemma env_step_inputs (w : World) (pins : gmap Z bool) (ir : option (list Z)) :
  env_step w (set_irrecv ir (set_pin_in pins w)).
Proof. unfold env_step. cbn. repeat split. Qed.

(** The failing input is a world the controller can be in. *)
Lemma w_learn_reachable : reachable w_learn.
Proof.
  apply (reach_env (exec setup power_up)); [apply reach_setup|].
  apply env_step_inputs.
Qed.

(** C1, at a failing input. The learn iteration stores and persists the
    fingerprint, and then, the stored code now being equal to the received
    one and the acknowledging blink having taken 400 ms, switches the
    relay on. *)
Theorem learn_turns_relay_on :
  let w' := exec loop w_learn in
  relayStatus w_learn = 0 /\
  irrecv w_learn = Some pulsesA /\
  eval (digitalRead MEMORY_CODE_PIN) w_learn = LOW /\
  storedCode w' = decodeHash (results_of pulsesA) /\
  load_bytes sizeof_ulong ADDR_CODE (eeprom w') = decodeHash (results_of pulsesA) /\
  relayStatus w' = 1 /\
  port w' !! RELAY_PIN = Some HIGH.
Proof. vm_compute. repeat split; reflexivity. Qed.

(** * Further properties *)

(** ** The comparator and the fingerprint *)

(** X1. Swapping the arguments of [compare] mirrors the result: shorter
    becomes longer and back, equal stays equal. On 16-bit values, zero
    included, there is no pair that both directions call different from
    equal in the same sense, nor one that only one direction calls equal. *)
Theorem compare_swap (a b : Z) :
  0 <= a < 2 ^ 16 -> 0 <= b < 2 ^ 16 ->
  compare b a = 2 - compare a b.
Proof.
  intros Ha Hb.
  rewrite (compare_exact a b), (compare_exact b a) by assumption.
  destruct (Z.ltb_spec (5 * b) (4 * a)), (Z.ltb_spec (5 * a) (4 * b));
    lia.
Qed.

Lemma compare_swap_witness : compare 1690 560 = 2 - compare 560 1690.
Proof. apply (compare_swap 560 1690); lia. Defined.

Lemma compare_ratio (k a b : Z) :
  0 < k -> 0 <= a -> 0 <= b -> k * a < 2 ^ 16 -> k * b < 2 ^ 16 ->
  compare (k * a) (k * b) = compare a b.
Proof.
  intros Hk Ha Hb Hka Hkb.
  rewrite (compare_exact (k * a) (k * b)) by nia.
  rewrite (compare_exact a b) by nia.
  destruct (Z.ltb_spec (5 * (k * b)) (4 * (k * a))),
    (Z.ltb_spec (5 * b) (4 * a)); try nia;
    destruct (Z.ltb_spec (5 * (k * a)) (4 * (k * b))),
      (Z.ltb_spec (5 * a) (4 * b)); try nia; reflexivity.
Qed.

(** X2. [compare] looks at the ratio of the two durations only: scaling
    both by the same positive factor, within 16 bits, does not change the
    result. *)
Theorem compare_scale (k a b : Z) :
  0 < k -> 0 <= a -> 0 <= b -> k * a < 2 ^ 16 -> k * b < 2 ^ 16 ->
  compare (k * a) (k * b) = compare a b.
Proof. apply compare_ratio. Qed.

Lemma compare_scale_witness : compare (50 * 560) (50 * 1200) = compare 560 1200.
Proof. apply (compare_scale 50 560 1200); lia. Defined.

(** X3. A fingerprint is a 32-bit value, whatever the result record
    holds: any buffer, any length field, negative ones included. *)
Theorem fingerprint_32bit (r : decode_results) : 0 <= decodeHash r < 2 ^ 32.
Proof. apply decodeHash_range. Qed.

(** X4. The loop of [decodeHash] is not entered unless [rawlen] is at
    least 4: for [rawlen <= 3] (three entries included) the result is the
    FNV basis. *)
Theorem decodeHash_short (r : decode_results) :
  rawlen r <= 3 -> decodeHash r = 2166136261.
Proof.
  intros Hlen. unfold decodeHash.
  destruct (Z.to_nat (rawlen r)) as [|fuel]; cbn [decodeHash_loop].
  - reflexivity.
  - destruct (Z.ltb_spec (1 + 2) (rawlen r)); [lia | reflexivity].
Qed.

Lemma decodeHash_short_witness :
  decodeHash (results_of [0; 9000; 4500]) = 2166136261.
Proof. apply (decodeHash_short (results_of [0; 9000; 4500])). cbn. lia. Defined.

Lemma decodeHash_loop_symbols (r r' : decode_results) :
  rawlen r = rawlen r' ->
  (forall j, 1 <= j -> j + 2 < rawlen r ->
     compare (rawbuf_at r j) (rawbuf_at r (j + 2)) =
     compare (rawbuf_at r' j) (rawbuf_at r' (j + 2))) ->
  forall (fuel : nat) (i hash : Z),
    1 <= i ->
    decodeHash_loop fuel r i hash = decodeHash_loop fuel r' i hash.
Proof.
  intros Hlen Hsym.
  induction fuel as [|fuel IH]; intros i hash Hi; cbn [decodeHash_loop].
  - reflexivity.
  - rewrite <- Hlen.
    destruct (Z.ltb_spec (i + 2) (rawlen r)); [|reflexivity].
    rewrite (Hsym i) by lia. apply IH. lia.
Qed.

(** X5. The fingerprint is a function of the ternary symbols alone: two
    result records of the same length whose entries compare alike at every
    pair of positions [j], [j + 2] with [1 <= j] have the same
    fingerprint, however much the durations themselves differ. *)
Theorem fingerprint_same_symbols (r r' : decode_results) :
  rawlen r = rawlen r' ->
  (forall j, 1 <= j -> j + 2 < rawlen r ->
     compare (rawbuf_at r j) (rawbuf_at r (j + 2)) =
     compare (rawbuf_at r' j) (rawbuf_at r' (j + 2))) ->
  decodeHash r = decodeHash r'.
Proof.
  intros Hlen Hsym. unfold decodeHash. rewrite <- Hlen.
  apply decodeHash_loop_symbols; [exact Hlen | exact Hsym | lia].
Qed.

Lemma fingerprint_same_symbols_witness :
  decodeHash (results_of [0; 9000; 4500; 560; 560]) =
  decodeHash (results_of [7; 8800; 4600; 600; 540]).
Proof.
  apply (fingerprint_same_symbols (results_of [0; 9000; 4500; 560; 560])
           (results_of [7; 8800; 4600; 600; 540])).
  - reflexivity.
  - cbn. intros j H1 H2. assert (j = 1 \/ j = 2) as [ -> | -> ] by lia;
      vm_compute; reflexivity.
Defined.

(** X6. The fingerprint reads neither the first entry of the buffer nor
    anything at or beyond position [rawlen]: what an earlier capture left
    there does not matter. *)
Theorem fingerprint_ignores_gap_and_tail
    (first first' : Z) (pulses tail tail' : list Z) :
  decodeHash (mk_results (first :: pulses ++ tail)
                (1 + Z.of_nat (length pulses))) =
  decodeHash (mk_results (first' :: pulses ++ tail')
                (1 + Z.of_nat (length pulses))).
Proof.
  assert (Hat : forall f t j,
             1 <= j -> j < 1 + Z.of_nat (length pulses) ->
             rawbuf_at (mk_results (f :: pulses ++ t)
                          (1 + Z.of_nat (length pulses))) j =
             nth (Z.to_nat (j - 1)) pulses 0).
  { intros f t j H1 H2. unfold rawbuf_at. cbn [rawbuf].
    replace (Z.to_nat j) with (S (Z.to_nat (j - 1))) by lia.
    cbn [nth]. apply app_nth1. lia. }
  unfold decodeHash. cbn [rawlen].
  apply decodeHash_loop_symbols; [reflexivity | | lia].
  cbn [rawlen]. intros j H1 H2.
  rewrite !Hat by lia. reflexivity.
Qed.

(** X7. Stretching every duration of a capture by the same positive
    factor (another tick unit, a slower remote), within 16 bits, leaves
    the fingerprint as it was. *)
Theorem fingerprint_scale (k : Z) (pulses : list Z) :
  0 < k ->
  Forall (fun x => 0 <= x /\ k * x < 2 ^ 16) pulses ->
  decodeHash (results_of (map (Z.mul k) pulses)) =
  decodeHash (results_of pulses).
Proof.
  intros Hk Hall.
  assert (Hnth : forall n, 0 <= nth n pulses 0 /\ k * nth n pulses 0 < 2 ^ 16).
  { intros n. destruct (lt_dec n (length pulses)) as [Hn|Hn].
    - rewrite List.Forall_forall in Hall. apply Hall, nth_In, Hn.
    - rewrite nth_overflow by lia. lia. }
  assert (Hat : forall j,
             rawbuf_at (results_of (map (Z.mul k) pulses)) j =
             k * rawbuf_at (results_of pulses) j).
  { intros j. unfold rawbuf_at. cbn [results_of rawbuf].
    rewrite <- (Z.mul_0_r k) at 1. apply map_nth. }
  unfold decodeHash. cbn [results_of rawlen]. rewrite length_map.
  apply decodeHash_loop_symbols; [cbn; rewrite length_map; reflexivity | | lia].
  intros j H1 H2. rewrite !Hat. unfold rawbuf_at. cbn [results_of rawbuf].
  apply compare_ratio; try apply Hnth; exact Hk.
Qed.

Lemma fingerprint_scale_witness :
  decodeHash (results_of (map (Z.mul 2) [0; 9000; 4500; 560; 1690])) =
  decodeHash (results_of [0; 9000; 4500; 560; 1690]).
Proof.
  apply (fingerprint_scale 2 [0; 9000; 4500; 560; 1690]); [lia|].
  repeat constructor; lia.
Defined.

(** ** Persistence across a restart *)

Lemma setup_storedCode (w : World) :
  storedCode (exec setup w) = load_bytes sizeof_ulong ADDR_CODE (eeprom w) /\
  eeprom (exec setup w) = eeprom w.
Proof. run. branch; split; reflexivity. Qed.

Lemma receive_code (w : World) :
  let w' := exec loop_receive w in
  (storedCode w' = storedCode w /\ eeprom w' = eeprom w) \/
  (exists r, storedCode w' = decodeHash r /\
             eeprom w' = store_bytes sizeof_ulong ADDR_CODE (decodeHash r) (eeprom w)).
Proof.
  run. repeat branch; try (left; split; reflexivity);
    right; eexists; split; reflexivity.
Qed.

Lemma persisted_timeout_range (w : World) :
  persisted_ok w -> 0 < storedTime w <= 10000.
Proof.
  intros [_ ->]. cbv zeta.
  pose proof (load_bytes_range sizeof_uint ADDR_TIME (eeprom w)) as [Hv _].
  destruct (Z.eqb_spec (load_bytes sizeof_uint ADDR_TIME (eeprom w)) 0);
    destruct (Z.ltb_spec 10000 (load_bytes sizeof_uint ADDR_TIME (eeprom w)));
    cbn; lia.
Qed.

Lemma persisted_store_time (w : World) (stored : Z) (e : gmap Z byte) :
  0 < stored <= 10000 ->
  load_bytes sizeof_ulong ADDR_CODE
    (store_bytes sizeof_uint ADDR_TIME stored e) =
  load_bytes sizeof_ulong ADDR_CODE e /\
  stored =
    (let v := load_bytes sizeof_uint ADDR_TIME
                (store_bytes sizeof_uint ADDR_TIME stored e) in
     if (v =? 0) || (10000 <? v) then 5000 else v).
Proof.
  intros Hs. split.
  - apply load_store_other. left.
    unfold ADDR_CODE, ADDR_TIME, sizeof_ulong. lia.
  - cbv zeta. rewrite (load_store_same sizeof_uint).
    change (256 ^ Z.of_nat sizeof_uint) with 65536.
    rewrite Z.mod_small by lia.
    destruct (Z.eqb_spec stored 0); [lia|].
    destruct (Z.ltb_spec 10000 stored); [lia|]. reflexivity.
Qed.

Lemma persisted_loop (w : World) : persisted_ok w -> persisted_ok (exec loop w).
Proof.
  intros Hok. pose proof (persisted_timeout_range w Hok) as Hr.
  destruct Hok as [Hc Ht].
  rewrite exec_loop.
  set (w1 := exec loop_increase_timeout w).
  assert (H1 : persisted_ok w1).
  { destruct (increase_timeout_frame w) as (Hc1 & _).
    fold w1 in Hc1. unfold persisted_ok. rewrite Hc1.
    destruct (increase_timeout_storedTime w)
      as [[Ht1 He1]|(stored & Hs & Ht1 & He1)]; fold w1 in Ht1, He1;
      rewrite Ht1, He1.
    - split; assumption.
    - assert (Hsr : 0 < stored <= 10000).
      { subst stored. rewrite wrap16_small by lia. unfold MAX_TIME.
        destruct (Z.ltb_spec 10000 (storedTime w + 1000)); lia. }
      destruct (persisted_store_time w stored (eeprom w) Hsr) as [Ha Hb].
      rewrite Ha. split; [exact Hc | exact Hb]. }
  set (w2 := exec loop_receive w1).
  assert (H2 : persisted_ok w2).
  { destruct (receive_frame w1) as (Ht2 & _).
    fold w2 in Ht2. destruct H1 as [Hc1 Ht1].
    unfold persisted_ok. rewrite Ht2.
    destruct (receive_code w1) as [[Hc2 He2]|(r & Hc2 & He2)];
      fold w2 in Hc2, He2; rewrite Hc2, He2.
    - split; assumption.
    - split.
      + rewrite (load_store_same sizeof_ulong). symmetry.
        apply Z.mod_small. apply (decodeHash_range r).
      + rewrite (load_store_other sizeof_uint); [exact Ht1|].
        right. unfold ADDR_CODE, ADDR_TIME, sizeof_ulong. lia. }
  destruct (relay_timeout_frame w2) as (Hc3 & Ht3 & _ & He3).
  unfold persisted_ok. rewrite Hc3, Ht3, He3. exact H2.
Qed.

Lemma persisted_reachable (w : World) : reachable w -> persisted_ok w.
Proof.
  induction 1 as [w | w Hr IH | w w' Hr IH Henv].
  - destruct (setup_storedCode w) as [Hc He].
    destruct (setup_storedTime w) as [_ Ht].
    unfold persisted_ok. rewrite Hc, Ht, He. split; reflexivity.
  - apply persisted_loop, IH.
  - destruct Henv as (Hc & Ht & _ & _ & _ & _ & He & _).
    unfold persisted_ok. rewrite Hc, Ht, He. exact IH.
Qed.

(** X8. A power cycle loses nothing: in every world the controller can
    reach, a restart on the same byte store (whatever the rest of the
    board holds) brings back the Learned Code and the Relay Timeout that
    were in effect. *)
Theorem restart_restores (w w2 : World) :
  reachable w -> eeprom w2 = eeprom w ->
  storedCode (exec setup w2) = storedCode w /\
  storedTime (exec setup w2) = storedTime w.
Proof.
  intros Hr He. destruct (persisted_reachable w Hr) as [Hc Ht].
  destruct (setup_storedCode w2) as [Hc2 _].
  destruct (setup_storedTime w2) as [_ Ht2].
  rewrite Hc2, Ht2, He. split; symmetry; assumption.
Qed.

Lemma restart_restores_witness :
  storedCode (exec setup (exec loop w_learn)) = storedCode (exec loop w_learn) /\
  storedTime (exec setup (exec loop w_learn)) = storedTime (exec loop w_learn).
Proof.
  apply (restart_restores (exec loop w_learn) (exec loop w_learn));
    [|reflexivity].
  apply reach_loop, (reach_env (exec setup power_up)); [apply reach_setup|].
  apply env_step_inputs.
Defined.

(** X9. Learning survives a restart: after an iteration in which a
    transmission was received with the learn button held, the Learned Code
    is its fingerprint, and so it is after a later [setup] on the byte
    store this iteration left. *)
Theorem learn_survives_restart (w w2 : World) (pulses : list Z) :
  irrecv w = Some pulses ->
  eval (digitalRead MEMORY_CODE_PIN) w = LOW ->
  eeprom w2 = eeprom (exec loop w) ->
  storedCode (exec loop w) = decodeHash (results_of pulses) /\
  storedCode (exec setup w2) = decodeHash (results_of pulses).
Proof.
  intros Hir Hpin He.
  destruct (setup_storedCode w2) as [-> _]. rewrite He.
  rewrite exec_loop.
  set (w1 := exec loop_increase_timeout w).
  destruct (increase_timeout_frame w) as (_ & _ & _ & Hir1 & Hpin1 & _).
  fold w1 in Hir1, Hpin1.
  assert (Hpin' : eval (digitalRead MEMORY_CODE_PIN) w1 = LOW).
  { revert Hpin. unfold eval, digitalRead, gets. cbn. rewrite Hpin1. auto. }
  rewrite <- Hir1 in Hir.
  destruct (learn_receive w1 pulses Hir Hpin') as (Hc & Hl & _).
  destruct (relay_timeout_frame (exec loop_receive w1)) as (-> & _ & _ & ->).
  split; assumption.
Qed.

Lemma learn_survives_restart_witness :
  storedCode (exec loop w_learn) = decodeHash (results_of pulsesA) /\
  storedCode (exec setup (exec loop w_learn)) = decodeHash (results_of pulsesA).
Proof.
  apply (learn_survives_restart w_learn (exec loop w_learn) pulsesA);
    reflexivity.
Defined.

(** ** What an iteration leaves alone *)

(** X10. The Relay Timeout changes only through a due press: in an
    iteration in which the adjust button reads released, or not more than
    1000 ms have passed since it was last seen pressed, the timeout and
    its persisted copy stay as they were. *)
Theorem timeout_kept (w : World) :
  eval (digitalRead MEMORY_TIME_PIN) w = HIGH \/
  wrap32 (eval millis w - timeMs w) <= 1000 ->
  storedTime (exec loop w) = storedTime w /\
  load_bytes sizeof_uint ADDR_TIME (eeprom (exec loop w)) =
  load_bytes sizeof_uint ADDR_TIME (eeprom w).
Proof.
  intros Hidle. destruct (loop_storedTime w) as [-> ->].
  revert Hidle. run. intros Hidle.
  destruct (default HIGH (pin_in w !! MEMORY_TIME_PIN)) eqn:Hpin; cbn.
  - split; reflexivity.
  - destruct Hidle as [Hh|Hle]; [discriminate|].
    destruct (Z.ltb_spec 1000
                (wrap32 (wrap32 (clock w + hd 0 (ticks w)) - timeMs w)));
      [lia|]. cbn. split; reflexivity.
Qed.

Lemma timeout_kept_witness :
  storedTime (exec loop w_released) = storedTime w_released /\
  load_bytes sizeof_uint ADDR_TIME (eeprom (exec loop w_released)) =
  load_bytes sizeof_uint ADDR_TIME (eeprom w_released).
Proof. apply (timeout_kept w_released). left. vm_compute. reflexivity. Defined.

(** X11. The Learned Code changes only through a learn action: in an
    iteration in which nothing was received, or the learn button reads
    released, the Learned Code and its persisted copy stay as they were,
    whatever was received. *)
Theorem code_kept (w : World) :
  irrecv w = None \/ eval (digitalRead MEMORY_CODE_PIN) w = HIGH ->
  storedCode (exec loop w) = storedCode w /\
  load_bytes sizeof_ulong ADDR_CODE (eeprom (exec loop w)) =
  load_bytes sizeof_ulong ADDR_CODE (eeprom w).
Proof.
  intros Hidle. rewrite exec_loop.
  set (w1 := exec loop_increase_timeout w).
  destruct (increase_timeout_frame w) as (Hc1 & _ & _ & Hir1 & Hpin1 & _).
  fold w1 in Hc1, Hir1, Hpin1.
  assert (He1 : load_bytes sizeof_ulong ADDR_CODE (eeprom w1) =
                load_bytes sizeof_ulong ADDR_CODE (eeprom w)).
  { destruct (increase_timeout_storedTime w) as [[_ He]|(stored & _ & _ & He)];
      fold w1 in He; rewrite He; [reflexivity|].
    apply load_store_other. left.
    unfold ADDR_CODE, ADDR_TIME, sizeof_ulong. lia. }
  destruct (relay_timeout_frame (exec loop_receive w1)) as (-> & _ & _ & ->).
  rewrite <- Hc1, <- He1.
  assert (Hidle1 : irrecv w1 = None \/
                   default HIGH (pin_in w1 !! MEMORY_CODE_PIN) = HIGH).
  { rewrite Hir1, Hpin1. exact Hidle. }
  clearbody w1. clear - Hidle1. run.
  destruct (irrecv w1) as [pulses|]; cbn; [|split; reflexivity].
  destruct Hidle1 as [Hn|Hh]; [discriminate|]. rewrite Hh. cbn.
  repeat branch; split; reflexivity.
Qed.

Lemma code_kept_witness :
  storedCode (exec loop w_other) = storedCode w_other /\
  load_bytes sizeof_ulong ADDR_CODE (eeprom (exec loop w_other)) =
  load_bytes sizeof_ulong ADDR_CODE (eeprom w_other).
Proof. apply (code_kept w_other). right. vm_compute. reflexivity. Defined.

(** X12. A transmission other than the learned one does nothing to the
    relay: received with the learn button released, it leaves the relay
    state, the output pins and the "last match" timestamp as they were; it
    is reported on the debug line and the receiver is re-armed. *)
Theorem other_code_ignored (w : World) (pulses : list Z) :
  irrecv w = Some pulses ->
  eval (digitalRead MEMORY_CODE_PIN) w = HIGH ->
  storedCode w <> decodeHash (results_of pulses) ->
  let w' := exec loop_receive w in
  relayStatus w' = relayStatus w /\ port w' = port w /\
  codeMs w' = codeMs w /\ clock w' = clock w /\ irrecv w' = None /\
  emitted loop_receive w =
    [EvPrint "Stored Code: "; EvPrintlnHex (storedCode w);
     EvPrint "Received Code: "; EvPrintlnHex (decodeHash (results_of pulses))].
Proof.
  intros Hir Hpin Hne. unfold emitted. revert Hpin. run.
  rewrite Hir. cbn. intros ->. cbn.
  destruct (Z.eqb_spec (storedCode w) (decodeHash (results_of pulses)));
    [contradiction|]. cbn.
  repeat split; try reflexivity.
  rewrite <- !app_assoc. cbn. apply drop_app_length.
Qed.

Lemma other_code_ignored_witness :
  relayStatus (exec loop_receive w_other) = relayStatus w_other /\
  port (exec loop_receive w_other) = port w_other /\
  codeMs (exec loop_receive w_other) = codeMs w_other /\
  clock (exec loop_receive w_other) = clock w_other /\
  irrecv (exec loop_receive w_other) = None /\
  emitted loop_receive w_other =
    [EvPrint "Stored Code: "; EvPrintlnHex (storedCode w_other);
     EvPrint "Received Code: "; EvPrintlnHex (decodeHash (results_of pulsesA))].
Proof.
  apply (other_code_ignored w_other pulsesA); vm_compute;
    [reflexivity | reflexivity | discriminate].
Defined.

(** X13. An idle iteration has no effect: with the adjust button
    released, nothing received, and the relay off or still within its
    timeout, [loop] changes no variable, no output pin, nothing in the
    byte store and emits nothing; only time has passed. *)
Theorem idle_iteration (w : World) :
  eval (digitalRead MEMORY_TIME_PIN) w = HIGH ->
  irrecv w = None ->
  relayStatus w = 0 \/ wrap32 (eval millis w - codeMs w) <= storedTime w ->
  env_step w (exec loop w).
Proof.
  intros Hpin Hir Hrel. unfold env_step. revert Hpin Hrel. run.
  intros -> Hrel. cbn. rewrite Hir. cbn.
  destruct Hrel as [Hoff|Hle].
  - assert (E : negb (relayStatus w =? 0) = false)
      by (rewrite Hoff; reflexivity).
    rewrite E, andb_false_r. cbn. repeat split; reflexivity.
  - destruct (Z.ltb_spec (storedTime w)
                (wrap32 (wrap32 (clock w + hd 0 (ticks w)) - codeMs w)));
      [lia|]. cbn. repeat split; reflexivity.
Qed.

Lemma idle_iteration_witness : env_step w_released (exec loop w_released).
Proof.
  apply (idle_iteration w_released); vm_compute;
    [reflexivity | reflexivity | left; reflexivity].
Defined.

(** ** Whole iterations *)

Lemma wrap32_idem (z : Z) : wrap32 (wrap32 z + 0) = wrap32 z.
Proof. unfold wrap32. rewrite Z.add_0_r. apply Z.mod_mod. lia. Qed.

Lemma wrap32_diag (z : Z) : wrap32 (z - z) = 0.
Proof. rewrite Z.sub_diag. reflexivity. Qed.

(** X14. A held remote keeps the relay alive: when the learned code is
    received while the relay is on, the iteration restarts the timeout
    from the current time and leaves the relay on and the pins alone, even
    if the timeout had already run out when the iteration began (the match
    is handled before the timeout is looked at). Stated for an iteration
    during which the counter does not advance. *)
Theorem held_remote_keeps_relay_on (w : World) (pulses : list Z) :
  eval (digitalRead MEMORY_TIME_PIN) w = HIGH ->
  eval (digitalRead MEMORY_CODE_PIN) w = HIGH ->
  irrecv w = Some pulses ->
  storedCode w = decodeHash (results_of pulses) ->
  relayStatus w <> 0 ->
  ticks w = [] ->
  0 <= storedTime w ->
  relayStatus (exec loop w) = relayStatus w /\
  port (exec loop w) = port w /\
  codeMs (exec loop w) = wrap32 (clock w).
Proof.
  intros Htp Hcp Hir Hcode Hon Hticks Hst.
  revert Htp Hcp. run. intros -> Hcp. cbn.
  rewrite Hir. cbn. rewrite Hcp. cbn.
  rewrite Hcode, Z.eqb_refl. cbn. rewrite lnot_test.
  destruct (Z.eqb_spec (relayStatus w) 0) as [|_]; [contradiction|].
  rewrite andb_false_r. cbn. rewrite Hticks. cbn.
  rewrite !wrap32_idem, wrap32_diag.
  destruct (Z.ltb_spec (storedTime w) 0); [lia|]. cbn.
  rewrite ?Z.add_0_r. repeat split; reflexivity.
Qed.

Lemma held_remote_keeps_relay_on_witness :
  relayStatus (exec loop w_held) = relayStatus w_held /\
  port (exec loop w_held) = port w_held /\
  codeMs (exec loop w_held) = wrap32 (clock w_held).
Proof.
  apply (held_remote_keeps_relay_on w_held pulsesA); vm_compute;
    try reflexivity; discriminate.
Defined.

(** X15. The learned code switches the relay on within the iteration
    that receives it: relay off, more than 250 ms since the last match,
    learn and adjust buttons released; when [loop] returns the relay and
    the indicator are driven high and the relay state is on. Stated for an
    iteration during which the counter does not advance. *)
Theorem learned_code_switches_on (w : World) (pulses : list Z) :
  eval (digitalRead MEMORY_TIME_PIN) w = HIGH ->
  eval (digitalRead MEMORY_CODE_PIN) w = HIGH ->
  irrecv w = Some pulses ->
  storedCode w = decodeHash (results_of pulses) ->
  relayStatus w = 0 ->
  250 < wrap32 (eval millis w - codeMs w) ->
  ticks w = [] ->
  0 <= storedTime w ->
  relayStatus (exec loop w) = 1 /\
  port (exec loop w) !! RELAY_PIN = Some HIGH /\
  port (exec loop w) !! STATUS_LED = Some HIGH /\
  codeMs (exec loop w) = wrap32 (clock w).
Proof.
  intros Htp Hcp Hir Hcode Hoff Hdue Hticks Hst.
  revert Htp Hcp Hdue. run. intros -> Hcp Hdue. cbn.
  rewrite Hir. cbn. rewrite Hcp. cbn.
  rewrite Hcode, Z.eqb_refl. cbn. rewrite lnot_test.
  apply Z.ltb_lt in Hdue. rewrite Hdue.
  rewrite Hoff. cbn. rewrite Hticks. cbn.
  rewrite !wrap32_idem, wrap32_diag.
  destruct (Z.ltb_spec (storedTime w) 0); [lia|]. cbn.
  rewrite ?Z.add_0_r. repeat split; try reflexivity; pins.
Qed.

Lemma learned_code_switches_on_witness :
  relayStatus (exec loop w_off_match) = 1 /\
  port (exec loop w_off_match) !! RELAY_PIN = Some HIGH /\
  port (exec loop w_off_match) !! STATUS_LED = Some HIGH /\
  codeMs (exec loop w_off_match) = wrap32 (clock w_off_match).
Proof.
  apply (learned_code_switches_on w_off_match pulsesA); vm_compute;
    try reflexivity; discriminate.
Defined.

(** X16. The timeout is measured right across the wrap of the
    millisecond counter: if the last match was recorded when the counter
    read [t0] modulo 2^32 and [d] ms (less than 2^32) have passed, the
    relay, being on, is switched off exactly when [d] exceeds the Relay
    Timeout. *)
Theorem timeout_across_wrap (w : World) (t0 d : Z) :
  codeMs w = wrap32 t0 ->
  eval millis w = wrap32 (t0 + d) ->
  0 <= d < 2 ^ 32 ->
  relayStatus w <> 0 ->
  (relayStatus (exec loop_relay_timeout w) = 0 <-> storedTime w < d).
Proof.
  intros Hc Hnow Hd Hon.
  assert (Hel : wrap32 (eval millis w - codeMs w) = d).
  { rewrite Hc, Hnow. apply elapsed_wrap_safe. exact Hd. }
  revert Hel. run. intros ->.
  destruct (Z.eqb_spec (relayStatus w) 0) as [|_]; [contradiction|].
  destruct (Z.ltb_spec (storedTime w) d) as [Hlt|Hge]; cbn.
  - unfold lnot. destruct (Z.eqb_spec (relayStatus w) 0); [contradiction|].
    split; [intros _; exact Hlt | reflexivity].
  - split; [intros E; contradiction | lia].
Qed.

Lemma timeout_across_wrap_witness :
  relayStatus (exec loop_relay_timeout w_wrapped) = 0 <->
  storedTime w_wrapped < 5100.
Proof.
  apply (timeout_across_wrap w_wrapped 4294967196 5100); vm_compute;
    try reflexivity; try discriminate. split; [discriminate | reflexivity].
Defined.

(** X17. Saving the timeout stalls the loop and puts the indicator out:
    [saveTimeout] advances the clock by 400 ms, or by 800 ms on a reset;
    it leaves the status led low, also when the relay is on, and never
    touches the relay pin or the relay state. *)
Theorem saveTimeout_stall (newTime : Z) (w : World) :
  let w' := exec (saveTimeout newTime) w in
  clock w' = wrap32 (clock w + (if 10000 <? newTime then 800 else 400)) /\
  port w' !! STATUS_LED = Some LOW /\
  port w' !! RELAY_PIN = port w !! RELAY_PIN /\
  relayStatus w' = relayStatus w.
Proof.
  assert (Hadd : forall x a b, wrap32 (wrap32 (x + a) + b) = wrap32 (x + (a + b))).
  { intros x a b. unfold wrap32. rewrite Zplus_mod_idemp_l.
    f_equal. ring. }
  run. change MAX_TIME with 10000.
  destruct (10000 <? newTime); cbn; rewrite !Hadd; cbn;
    repeat split; try reflexivity; pins.
Qed.

(** ** The relay pin and the relay state *)

Ltac relay_pin :=
  unfold RELAY_PIN, STATUS_LED, MEMORY_TIME_PIN, MEMORY_CODE_PIN in *;
  repeat (rewrite lookup_insert_eq || rewrite lookup_insert_ne by lia).

Lemma increase_timeout_relay (w : World) :
  relayStatus (exec loop_increase_timeout w) = relayStatus w /\
  port (exec loop_increase_timeout w) !! RELAY_PIN = port w !! RELAY_PIN.
Proof.
  run. repeat branch; split; try reflexivity; relay_pin; reflexivity.
Qed.

Lemma receive_mirrors (w : World) :
  relay_mirrors w -> relay_mirrors (exec loop_receive w).
Proof.
  unfold relay_mirrors. intros H. run.
  repeat branch; try exact H;
    try (relay_pin; exact H);
    destruct H as [[Hs Hp]|[Hs Hp]]; rewrite Hs in *; cbn in *;
    try discriminate;
    try (rewrite andb_false_r in *; discriminate);
    try (right; split; [reflexivity | relay_pin; reflexivity]).
Qed.

Lemma relay_timeout_mirrors (w : World) :
  relay_mirrors w -> relay_mirrors (exec loop_relay_timeout w).
Proof.
  unfold relay_mirrors. intros H. run.
  repeat branch; try exact H.
  destruct H as [[Hs Hp]|[Hs Hp]]; rewrite Hs in *; cbn in *;
    try (rewrite andb_false_r in *; discriminate).
  left. split; [reflexivity | relay_pin; discriminate].
Qed.

(** X18. The relay state and the relay pin never disagree: if
    [relayStatus] is 0 with the relay pin not driven high, or 1 with the
    pin driven high, then the same holds after [setup] and after every
    iteration of [loop]; the blinks of the indicator do not disturb it. *)
Theorem relay_state_mirrors_pin (w : World) :
  relay_mirrors w ->
  relay_mirrors (exec setup w) /\ relay_mirrors (exec loop w).
Proof.
  intros H. split.
  - unfold relay_mirrors in *. run. branch; relay_pin; exact H.
  - rewrite exec_loop. apply relay_timeout_mirrors, receive_mirrors.
    destruct (increase_timeout_relay w) as [Hs Hp].
    unfold relay_mirrors. rewrite Hs, Hp. exact H.
Qed.

Lemma relay_state_mirrors_pin_witness :
  relay_mirrors (exec setup w_held) /\ relay_mirrors (exec loop w_held).
Proof.
  apply (relay_state_mirrors_pin w_held).
  right. vm_compute. split; reflexivity.
Defined.

(** ** Pressing and holding the adjust button *)

Lemma pressed_sets_timeMs (w : World) :
  eval (digitalRead MEMORY_TIME_PIN) w = LOW ->
  timeMs (exec loop w) = clock (exec loop_increase_timeout w).
Proof.
  intros Hpin. rewrite exec_loop.
  destruct (relay_timeout_frame
              (exec loop_receive (exec loop_increase_timeout w)))
    as (_ & _ & -> & _).
  destruct (receive_frame (exec loop_increase_timeout w)) as (_ & -> & _).
  revert Hpin. run. intros ->. cbn. repeat branch; reflexivity.
Qed.

(** X19. Holding the adjust button does not repeat the increase: if the
    button read pressed in one iteration, then in any later poll that
    starts within 1000 ms (inclusive) of the moment that iteration noted,
    whatever the inputs are by then, the Relay Timeout is left as it was.
    Every pressed poll notes a new moment, so only a press that follows
    more than 1000 ms without a pressed poll increases the timeout. *)
Theorem held_button_no_repeat (w w' : World) :
  eval (digitalRead MEMORY_TIME_PIN) w = LOW ->
  env_step (exec loop w) w' ->
  wrap32 (eval millis w' - clock (exec loop_increase_timeout w)) <= 1000 ->
  storedTime (exec loop w') = storedTime (exec loop w) /\
  load_bytes sizeof_uint ADDR_TIME (eeprom (exec loop w')) =
  load_bytes sizeof_uint ADDR_TIME (eeprom (exec loop w)).
Proof.
  intros Hpin Henv Hsoon.
  rewrite <- (pressed_sets_timeMs w Hpin) in Hsoon.
  destruct Henv as (_ & Ht & Htm & _ & _ & _ & He & _).
  rewrite <- Htm in Hsoon. rewrite <- Ht, <- He.
  destruct (loop_storedTime w') as [-> ->].
  revert Hsoon. clear. run. intros Hsoon.
  destruct (default HIGH (pin_in w' !! MEMORY_TIME_PIN)); cbn.
  - split; reflexivity.
  - destruct (Z.ltb_spec 1000
                (wrap32 (wrap32 (clock w' + hd 0 (ticks w')) - timeMs w')));
      [lia|]. cbn. split; reflexivity.
Qed.

Lemma held_button_no_repeat_witness :
  storedTime (exec loop (exec loop w_9500)) = storedTime (exec loop w_9500) /\
  load_bytes sizeof_uint ADDR_TIME (eeprom (exec loop (exec loop w_9500))) =
  load_bytes sizeof_uint ADDR_TIME (eeprom (exec loop w_9500)).
Proof.
  apply (held_button_no_repeat w_9500 (exec loop w_9500)).
  - vm_compute. reflexivity.
  - unfold env_step. tauto.
  - vm_compute. discriminate.
Defined.

(** X20. [saveTimeout] never stores a timeout above 10000: for every
    16-bit argument the value kept in memory is the argument itself if it
    is at most 10000 and 1000 otherwise, and reading the byte store back
    gives the value kept in memory. *)
Theorem saveTimeout_bounded (newTime : Z) (w : World) :
  0 <= newTime < 2 ^ 16 ->
  let w' := exec (saveTimeout newTime) w in
  storedTime w' <= 10000 /\
  (newTime <= 10000 -> storedTime w' = newTime) /\
  (10000 < newTime -> storedTime w' = 1000) /\
  load_bytes sizeof_uint ADDR_TIME (eeprom w') = storedTime w'.
Proof.
  intros Hn w'.
  destruct (saveTimeout_stores newTime w) as (Ht & He & _).
  fold w' in Ht, He. rewrite Ht, He. unfold MAX_TIME.
  rewrite (load_store_same sizeof_uint).
  change (256 ^ Z.of_nat sizeof_uint) with 65536.
  destruct (Z.ltb_spec 10000 newTime);
    rewrite Z.mod_small by lia; repeat split; intros; lia.
Qed.

Lemma saveTimeout_bounded_witness :
  storedTime (exec (saveTimeout 65535) power_up) <= 10000 /\
  (65535 <= 10000 -> storedTime (exec (saveTimeout 65535) power_up) = 65535) /\
  (10000 < 65535 -> storedTime (exec (saveTimeout 65535) power_up) = 1000) /\
  load_bytes sizeof_uint ADDR_TIME (eeprom (exec (saveTimeout 65535) power_up)) =
  storedTime (exec (saveTimeout 65535) power_up).
Proof. apply (saveTimeout_bounded 65535 power_up). lia. Defined.
